(** * Partition-table support of the generic block-device interface

  Shallow embedding of
  [Software Platform/services/posix/devio/blockio/src/blockio.c]:
  the three table-level entry points [blockio_write_partitiontable],
  [blockio_write_partitiontype] and [blockio_select_partition], the MBR
  sector layout they share, and the properties of the partition-table
  manager that follow from the code.

  Conventions.
  - C integers are [Z] values; [int] is 32 bits wide, and every conversion
    to a fixed width is written out with [uint32] / [sint32] (two's
    complement wrap-around).  An integer division by zero and a store
    outside the sector buffer have no defined result.
  - The sector buffer [buf32] is a [list Z] of 512 byte values; struct
    fields are reached through their byte offsets in [blockio_mbr_t].
  - Calls through the device capability table are recorded, in order, in
    a trace of [event]s. *)

From Stdlib Require Import ZArith Lia.
From stdpp Require Import base list.

Local Open Scope Z_scope.

(** ** Fixed-width integers *)

Module Int.

(** Value of an integer expression stored in a [uint32_t]. *)
Definition uint32 (z : Z) : Z := z mod 2 ^ 32.

(** Value of an integer expression stored in an [int32_t] (or a 32-bit
    [int]): two's complement wrap-around. *)
Definition sint32 (z : Z) : Z := (z + 2 ^ 31) mod 2 ^ 32 - 2 ^ 31.

(** The same for the 64-bit types of the relative pass. *)
Definition uint64 (z : Z) : Z := z mod 2 ^ 64.
Definition sint64 (z : Z) : Z := (z + 2 ^ 63) mod 2 ^ 64 - 2 ^ 63.

Definition is_uint32 (z : Z) : Prop := 0 <= z < 2 ^ 32.
Definition is_sint32 (z : Z) : Prop := - 2 ^ 31 <= z < 2 ^ 31.

End Int.
Export Int.

(** ** Sector buffers *)

Module Buffer.

Definition BLOCKIO_DEFAULT_SECTORSIZE : Z := 512.

(** [n] bytes of [buf] starting at byte offset [off]. *)
Definition load (off n : nat) (buf : list Z) : list Z :=
  take n (drop off buf).

(** [buf] with the bytes [bs] copied to byte offset [off]; callers keep
    [off + length bs] within the buffer. *)
Definition store (off : nat) (bs : list Z) (buf : list Z) : list Z :=
  take off buf ++ bs ++ drop (off + length bs) buf.

(** [memset( buf32, 0, BLOCKIO_DEFAULT_SECTORSIZE )] *)
Definition zero_sector : list Z :=
  replicate (Z.to_nat BLOCKIO_DEFAULT_SECTORSIZE) 0.

End Buffer.
Export Buffer.

(** ** Little-endian accessors *)

Module Endian.

(** Modelled from the spec: the header [util_endian.h] that declares
    [write_little32to16], [write_little16to16], [read_little32from16] and
    [read_little16from16] is not among the sources.  The spec fixes
    their meaning: multi-byte integer fields are little-endian, least
    significant byte at the lowest offset. *)
Definition little_bytes32 (v : Z) : list Z :=
  [ Z.land v 255;
    Z.land (Z.shiftr v 8) 255;
    Z.land (Z.shiftr v 16) 255;
    Z.land (Z.shiftr v 24) 255 ].

(** Modelled from the spec: two-byte little-endian image ([util_endian.h]
    is missing, see [little_bytes32]). *)
Definition little_bytes16 (v : Z) : list Z :=
  [ Z.land v 255; Z.land (Z.shiftr v 8) 255 ].

(** Modelled from the spec: value of a little-endian byte sequence
    ([util_endian.h] is missing, see [little_bytes32]). *)
Fixpoint little_value (bs : list Z) : Z :=
  match bs with
  | [] => 0
  | b :: bs' => b + Z.shiftl (little_value bs') 8
  end.

(** Modelled from the spec: [write_little32to16( p, v )] of the missing
    [util_endian.h], with [p] the byte at offset [off] of [buf]. *)
Definition write_little32to16 (buf : list Z) (off : nat) (v : Z) : list Z :=
  store off (little_bytes32 v) buf.

(** Modelled from the spec: [write_little16to16( p, v )] of the missing
    [util_endian.h]. *)
Definition write_little16to16 (buf : list Z) (off : nat) (v : Z) : list Z :=
  store off (little_bytes16 v) buf.

(** Modelled from the spec: [read_little32from16( p )] of the missing
    [util_endian.h]. *)
Definition read_little32from16 (buf : list Z) (off : nat) : Z :=
  little_value (load off 4 buf).

(** Modelled from the spec: [read_little16from16( p )] of the missing
    [util_endian.h]. *)
Definition read_little16from16 (buf : list Z) (off : nat) : Z :=
  little_value (load off 2 buf).

End Endian.
Export Endian.

(** ** Layout of the master boot record *)

Module Mbr.

(** [blockio_mbr_partinfo_t]: one 16-byte entry of the partition table.
    The record is the decoded view of the entry: [startsector] and
    [sectors] hold the 32-bit values of the two [uint8_t[4]] fields. *)
Record blockio_mbr_partinfo_t := {
  state : Z;
  begin_head : Z;
  begin_cylindersector : list Z;
  type : Z;
  end_head : Z;
  end_cylindersector : list Z;
  startsector : Z;
  sectors : Z
}.

(** [blockio_mbr_t]: boot code, four partition entries, signature. *)
Record blockio_mbr_t := {
  bootcode : list Z;
  partition : list blockio_mbr_partinfo_t;
  signature : Z
}.

Definition BLOCKIO_MBR_SIGNATURE : Z := 0xAA55.
Definition RESERVED_SECTORS : Z := 1.

(** Byte offsets of the members of [blockio_mbr_t] (all members are
    [uint8_t] arrays, so the struct has no padding). *)
Definition bootcode_size : nat := 446.
Definition partinfo_size : nat := 16.
Definition partition_off (i : nat) : nat := (bootcode_size + partinfo_size * i)%nat.
Definition signature_off : nat := (bootcode_size + partinfo_size * 4)%nat.

(** Byte offsets of the members of [blockio_mbr_partinfo_t]. *)
Definition state_off : nat := 0.
Definition begin_head_off : nat := 1.
Definition begin_cylindersector_off : nat := 2.
Definition type_off : nat := 4.
Definition end_head_off : nat := 5.
Definition end_cylindersector_off : nat := 6.
Definition startsector_off : nat := 8.
Definition sectors_off : nat := 12.

(** Byte address, relative to the start of [buf32], denoted by the
    lvalue [mbr->partition[idx].type] for an arbitrary C index. *)
Definition partition_type_addr (idx : Z) : Z :=
  Z.of_nat bootcode_size + Z.of_nat partinfo_size * idx + Z.of_nat type_off.

(** The address lies in [mbr->partition], in [mbr->bootcode], in the
    sector buffer. *)
Definition in_partition_array (a : Z) : Prop :=
  Z.of_nat bootcode_size <= a < Z.of_nat signature_off.
Definition in_bootcode (a : Z) : Prop :=
  0 <= a < Z.of_nat bootcode_size.
Definition in_sector_buffer (a : Z) : Prop :=
  0 <= a < BLOCKIO_DEFAULT_SECTORSIZE.

(** Field views of a sector buffer, as the code takes them through
    [( blockio_mbr_t * ) buf32]. *)
Definition mbr_signature (buf : list Z) : Z :=
  read_little16from16 buf signature_off.
Definition mbr_startsector (buf : list Z) (i : nat) : Z :=
  read_little32from16 buf (partition_off i + startsector_off).
Definition mbr_sectors (buf : list Z) (i : nat) : Z :=
  read_little32from16 buf (partition_off i + sectors_off).
Definition mbr_type (buf : list Z) (i : nat) : Z :=
  buf !!! (partition_off i + type_off)%nat.
Definition mbr_entry (buf : list Z) (i : nat) : list Z :=
  load (partition_off i) partinfo_size buf.

(** Modelled from the spec: the code has no codec function of its own,
    it overlays [blockio_mbr_t] on the sector buffer.  [encode_partinfo]
    is the byte image of one entry: the members in declaration order,
    the two 32-bit members in the little-endian form of the write
    helpers. *)
Definition encode_partinfo (p : blockio_mbr_partinfo_t) : list Z :=
  [state p; begin_head p] ++ begin_cylindersector p ++
  [type p; end_head p] ++ end_cylindersector p ++
  little_bytes32 (startsector p) ++ little_bytes32 (sectors p).

(** Modelled from the spec: [encode] of the MBR codec contract, the
    512-byte image of a record (no codec function exists in the code). *)
Definition encode (m : blockio_mbr_t) : list Z :=
  bootcode m ++ concat (encode_partinfo <$> partition m) ++
  little_bytes16 (signature m).

(** Modelled from the spec: decoding of entry [i] of a sector buffer,
    every member read at its offset, the 32-bit members through
    [read_little32from16]. *)
Definition decode_partinfo (buf : list Z) (i : nat) : blockio_mbr_partinfo_t :=
  let base := partition_off i in
  {| state := buf !!! (base + state_off)%nat;
     begin_head := buf !!! (base + begin_head_off)%nat;
     begin_cylindersector := load (base + begin_cylindersector_off) 2 buf;
     type := buf !!! (base + type_off)%nat;
     end_head := buf !!! (base + end_head_off)%nat;
     end_cylindersector := load (base + end_cylindersector_off) 2 buf;
     startsector := read_little32from16 buf (base + startsector_off);
     sectors := read_little32from16 buf (base + sectors_off) |}.

(** Modelled from the spec: [decode] of the MBR codec contract (no codec
    function exists in the code). *)
Definition decode (buf : list Z) : blockio_mbr_t :=
  {| bootcode := load 0 bootcode_size buf;
     partition := decode_partinfo buf <$> seq 0 4;
     signature := read_little16from16 buf signature_off |}.

(** Records whose members fit their C types. *)
Definition is_byte (b : Z) : Prop := 0 <= b < 256.

Record partinfo_wf (p : blockio_mbr_partinfo_t) : Prop := {
  wf_begin_cylindersector : length (begin_cylindersector p) = 2%nat;
  wf_end_cylindersector : length (end_cylindersector p) = 2%nat;
  wf_startsector : is_uint32 (startsector p);
  wf_sectors : is_uint32 (sectors p)
}.

Record mbr_wf (m : blockio_mbr_t) : Prop := {
  wf_bootcode : length (bootcode m) = bootcode_size;
  wf_partition_count : length (partition m) = 4%nat;
  wf_partition : Forall partinfo_wf (partition m);
  wf_signature : 0 <= signature m < 2 ^ 16
}.

End Mbr.
Export Mbr.

(** ** The block device seen through [posix_devctl] *)

Module Device.

(** Modelled from the spec: the header [blockio.h] that gives the error
    macros their values is not among the sources.  These are the four
    macros the partition-table functions return; the spec has them as
    distinct results, all negative. *)
Inductive blockio_error :=
| BLOCKIO_ERROR_IO
| BLOCKIO_ERROR_BLOCKSIZE_UNSUPPORTED
| BLOCKIO_ERROR_FDISK_DISKFULL
| BLOCKIO_ERROR_WRONG_MBR_SIGNATURE.

(** Error classes of the specification, and the class of each code the
    source returns.  No code of the source stands for an invalid
    argument: the rejection of a bad partition number returns
    [BLOCKIO_ERROR_IO]. *)
Inductive spec_error :=
| IoError
| UnsupportedBlockSize
| DiskFull
| WrongSignature
| InvalidArgument.

Definition classify (e : blockio_error) : spec_error :=
  match e with
  | BLOCKIO_ERROR_IO => IoError
  | BLOCKIO_ERROR_BLOCKSIZE_UNSUPPORTED => UnsupportedBlockSize
  | BLOCKIO_ERROR_FDISK_DISKFULL => DiskFull
  | BLOCKIO_ERROR_WRONG_MBR_SIGNATURE => WrongSignature
  end.

(** Return value of an entry point: the value of a [return] that is not an
    error code, an error code, or no defined result at all (integer
    division by zero, store outside the sector buffer). *)
Inductive retval :=
| Value (v : Z)
| Error (e : blockio_error)
| Undefined.

(** Modelled from the spec: [posix_devctl_blockio_cfg_t] is declared in a
    header that is not among the sources; the code uses exactly these three
    members, which the spec gives as unsigned 32-bit values. *)
Record posix_devctl_blockio_cfg_t := {
  blksize : Z;
  blktotal : Z;
  blkstart : Z
}.

(** Modelled from the spec: [posix_devctl_blockio_impl_t] is declared in a
    header that is not among the sources.  The members used by the
    partition-table code, with the bound [device] argument left implicit:
    [read_sectors lba count] yields the call's return value and the
    contents of the caller's buffer afterwards, [write_sectors buf lba
    count] the call's return value; [sanity_check] is [None] for a [NULL]
    function pointer. *)
Record posix_devctl_blockio_impl_t := {
  read_sectors : Z -> Z -> Z * list Z;
  write_sectors : list Z -> Z -> Z -> Z;
  sanity_check : option (Z -> Z -> Z -> bool)
}.

(** What [posix_devctl( fd, ... )] answers for a file descriptor: [None]
    when the call returns a negative value. *)
Record blockio_fd := {
  devctl_impl : option posix_devctl_blockio_impl_t;
  devctl_cfg : option posix_devctl_blockio_cfg_t
}.

Inductive devctl_request := DEVCTL_BLOCKIO_IMPL | DEVCTL_BLOCKIO_CFG.

(** Calls that leave the partition-table code, in program order. *)
Inductive event :=
| Devctl (req : devctl_request)
| ReadSectors (lba count ret : Z)
| WriteSectors (data : list Z) (lba count ret : Z)
| SanityCheck (start count total : Z).

(** Sector transfers among the events. *)
Definition is_sector_io (e : event) : bool :=
  match e with
  | ReadSectors _ _ _ | WriteSectors _ _ _ _ => true
  | _ => false
  end.

Definition sector_io (t : list event) : list event := filter is_sector_io t.

(** Sector address of a transfer. *)
Definition event_lba (e : event) : option Z :=
  match e with
  | ReadSectors lba _ _ | WriteSectors _ lba _ _ => Some lba
  | _ => None
  end.

(** The trace holds a read, respectively a write, that transferred exactly
    one sector. *)
Definition read_one (t : list event) : Prop :=
  exists lba, ReadSectors lba 1 1 ∈ t.
Definition wrote_one (t : list event) : Prop :=
  exists data lba, WriteSectors data lba 1 1 ∈ t.

(** All sector transfers of the three traces go to one sector address. *)
Definition same_sector (t1 t2 t3 : list event) : Prop :=
  exists lba, forall e, e ∈ sector_io t1 ++ sector_io t2 ++ sector_io t3 ->
                        event_lba e = Some lba.

End Device.
Export Device.

(** ** [blockio_write_partitiontable] *)

Module Writer.

(** State of the sizing loops: the caller's [size] array, [sectorsleft]
    and [relativetotal]. *)
Definition sizing_state : Type := list Z * Z * Z.

(** Body of the loop "reserve absoluut sizes" for index [i]. *)
Definition reserve_absolute (st : sizing_state) (i : nat) : sizing_state :=
  let '(size, sectorsleft, relativetotal) := st in
  if 0 <? size !!! i then
    let size' :=
      <[i := sint32 (size !!! i * (1024 * 1024 / BLOCKIO_DEFAULT_SECTORSIZE))]> size in
    (size', sint32 (sectorsleft - size' !!! i), relativetotal)
  else
    (size, sectorsleft, sint32 (relativetotal - size !!! i)).

(** The expression assigned to [size[i]] in the relative pass:
    [- (int32_t)( ( ( (int64_t)sectorstodivide ) * size[i] / relativetotal )
    & 0xFFFFFFFF )]. *)
Definition relative_share (sectorstodivide relativetotal s : Z) : Z :=
  sint32 (- sint32 (Z.land (Z.quot (sint64 (sint64 sectorstodivide * s)) relativetotal)
                           0xFFFFFFFF)).

(** Body of the loop "divide relative sizes" for index [i]; [None] once a
    division by zero has been executed. *)
Definition divide_relative (sectorstodivide relativetotal : Z)
    (st : option (list Z * Z)) (i : nat) : option (list Z * Z) :=
  match st with
  | None => None
  | Some (size, sectorsleft) =>
      if size !!! i <? 0 then
        if relativetotal =? 0 then None
        else
          let size' :=
            <[i := relative_share sectorstodivide relativetotal (size !!! i)]> size in
          Some (size', sint32 (sectorsleft - size' !!! i))
      else Some (size, sectorsleft)
  end.

(** Outcome of the sizing part of the function (from the initialisation of
    [sectorsleft] to the end of the relative pass). *)
Inductive sizing_result :=
| Sized (size : list Z) (sectorsleft : Z)
| SizingError (e : blockio_error) (size : list Z)
| SizingUndefined.

Definition partition_sizing (cfg : posix_devctl_blockio_cfg_t) (size : list Z)
    : sizing_result :=
  let sectorsleft := sint32 (uint32 (blktotal cfg - RESERVED_SECTORS)) in
  if negb (blksize cfg =? BLOCKIO_DEFAULT_SECTORSIZE) then
    SizingError BLOCKIO_ERROR_BLOCKSIZE_UNSUPPORTED size
  else
    let '(size, sectorsleft, relativetotal) :=
      foldl reserve_absolute (size, sectorsleft, 0) (seq 0 4) in
    if (sectorsleft <? 0) || ((sectorsleft =? 0) && negb (relativetotal =? 0)) then
      SizingError BLOCKIO_ERROR_FDISK_DISKFULL size
    else
      let sectorstodivide := uint64 sectorsleft in
      match foldl (divide_relative sectorstodivide relativetotal)
                  (Some (size, sectorsleft)) (seq 0 4) with
      | None => SizingUndefined
      | Some (size, sectorsleft) => Sized size sectorsleft
      end.

(** Quantities of a size specification used to state the results: the
    megabytes asked for by the absolute (positive) slots, the weights of
    the other slots, and the sum of a list of sector counts. *)
Definition absolute_total (size : list Z) : Z :=
  foldr (fun s acc => Z.max s 0 + acc) 0 size.
Definition relative_weight (size : list Z) : Z :=
  foldr (fun s acc => Z.max (- s) 0 + acc) 0 size.
Definition total_sectors (res : list Z) : Z := foldr Z.add 0 res.

(** What the passes make of a slot when no 32-bit value wraps: [scaled s]
    is the slot after the absolute pass; with budget [B] and total weight
    [R], [resolved B R s] is the slot after the relative pass and
    [share B R s] what that pass takes from [sectorsleft] for it. *)
Definition scaled (s : Z) : Z := if 0 <? s then s * 2048 else s.
Definition resolved (B R s : Z) : Z := if s <? 0 then (B * - s) / R else s.
Definition share (B R s : Z) : Z := if s <? 0 then (B * - s) / R else 0.

(** Body of the loop "write values into table" for index [i]: the sector
    buffer and the running [start]. *)
Definition write_entry (size : list Z) (st : list Z * Z) (i : nat) : list Z * Z :=
  let '(buf, start) := st in
  if negb (size !!! i =? 0) then
    let buf := write_little32to16 buf (partition_off i + startsector_off) start in
    let buf := write_little32to16 buf (partition_off i + sectors_off) (uint32 (size !!! i)) in
    (buf, uint32 (start + size !!! i))
  else (buf, start).

(** The sector built from the resolved sizes: cleared buffer, the entries,
    the signature. *)
Definition build_table (cfg : posix_devctl_blockio_cfg_t) (size : list Z) : list Z :=
  let start := uint32 (blkstart cfg + RESERVED_SECTORS) in
  let '(buf, _) := foldl (write_entry size) (zero_sector, start) (seq 0 4) in
  write_little16to16 buf signature_off BLOCKIO_MBR_SIGNATURE.

(** Sum of the sizes of the slots in [js] (the amount by which the loop
    advances [start] over these slots, before wrap-around). *)
Definition sectors_of (size : list Z) (js : list nat) : Z :=
  foldr (fun j acc => (if size !!! j =? 0 then 0 else size !!! j) + acc) 0 js.

(** Packing rule for a table [buf] built from the resolved sizes [res],
    with the first used entry starting at sector [base]: an unused slot
    has a cleared entry, a used slot records its size, the first used slot
    starts at [base], and every later used slot starts where the used slot
    before it ends (32-bit unsigned arithmetic). *)
Definition packed_from (base : Z) (res : list Z) (buf : list Z) : Prop :=
  (forall i, (i < 4)%nat -> res !!! i = 0 ->
     mbr_entry buf i = replicate partinfo_size 0) /\
  (forall i, (i < 4)%nat -> res !!! i <> 0 ->
     mbr_sectors buf i = uint32 (res !!! i)) /\
  (forall i, (i < 4)%nat -> res !!! i <> 0 ->
     (forall j, (j < i)%nat -> res !!! j = 0) ->
     mbr_startsector buf i = uint32 base) /\
  (forall i j, (i < j)%nat -> (j < 4)%nat -> res !!! i <> 0 -> res !!! j <> 0 ->
     (forall k, (i < k)%nat -> (k < j)%nat -> res !!! k = 0) ->
     mbr_startsector buf j = uint32 (mbr_startsector buf i + mbr_sectors buf i)).

(** Result of a call: the return value, the caller's [size] array after the
    call, and the calls made on the way. *)
Record table_result := {
  tr_ret : retval;
  tr_size : list Z;
  tr_trace : list event
}.

Definition blockio_write_partitiontable (fd : blockio_fd) (size : list Z)
    : table_result :=
  match devctl_impl fd with
  | None =>
      {| tr_ret := Error BLOCKIO_ERROR_IO; tr_size := size;
         tr_trace := [Devctl DEVCTL_BLOCKIO_IMPL] |}
  | Some impl =>
      match devctl_cfg fd with
      | None =>
          {| tr_ret := Error BLOCKIO_ERROR_IO; tr_size := size;
             tr_trace := [Devctl DEVCTL_BLOCKIO_IMPL; Devctl DEVCTL_BLOCKIO_CFG] |}
      | Some cfg =>
          let lookups := [Devctl DEVCTL_BLOCKIO_IMPL; Devctl DEVCTL_BLOCKIO_CFG] in
          match partition_sizing cfg size with
          | SizingError e size =>
              {| tr_ret := Error e; tr_size := size; tr_trace := lookups |}
          | SizingUndefined =>
              {| tr_ret := Undefined; tr_size := size; tr_trace := lookups |}
          | Sized size sectorsleft =>
              let buf32 := build_table cfg size in
              let written := write_sectors impl buf32 0 1 in
              {| tr_ret :=
                   if negb (written =? 1) then Error BLOCKIO_ERROR_IO
                   else Value (sint32 (Z.quot sectorsleft
                                  (1024 * 1024 / BLOCKIO_DEFAULT_SECTORSIZE)));
                 tr_size := size;
                 tr_trace := lookups ++ [WriteSectors buf32 0 1 written] |}
          end
      end
  end.

End Writer.
Export Writer.

(** ** [blockio_write_partitiontype] *)

Module Patcher.

Definition blockio_write_partitiontype (fd : blockio_fd) (nr : Z) (type : Z)
    : retval * list event :=
  match devctl_impl fd with
  | None => (Error BLOCKIO_ERROR_IO, [Devctl DEVCTL_BLOCKIO_IMPL])
  | Some impl =>
      match devctl_cfg fd with
      | None =>
          (Error BLOCKIO_ERROR_IO,
           [Devctl DEVCTL_BLOCKIO_IMPL; Devctl DEVCTL_BLOCKIO_CFG])
      | Some cfg =>
          let lookups := [Devctl DEVCTL_BLOCKIO_IMPL; Devctl DEVCTL_BLOCKIO_CFG] in
          let '(got, buf32) := read_sectors impl (blkstart cfg) 1 in
          let rd := ReadSectors (blkstart cfg) 1 got in
          if negb (got =? 1) then (Error BLOCKIO_ERROR_IO, lookups ++ [rd])
          else
            let addr := partition_type_addr (nr - 1) in
            if (0 <=? addr) && (addr <? BLOCKIO_DEFAULT_SECTORSIZE) then
              let buf32 := <[Z.to_nat addr := Z.land type 0xFF]> buf32 in
              let written := write_sectors impl buf32 (blkstart cfg) 1 in
              let wr := WriteSectors buf32 (blkstart cfg) 1 written in
              if negb (written =? 1) then (Error BLOCKIO_ERROR_IO, lookups ++ [rd; wr])
              else (Value 0, lookups ++ [rd; wr])
            else (Undefined, lookups ++ [rd])
      end
  end.

End Patcher.
Export Patcher.

(** ** [blockio_select_partition] *)

Module Selector.

(** Result of a call: the return value, the contents of [*blkstart] and
    [*blkcount] after the call ([None] for a [NULL] pointer), and the
    calls made on the way. *)
Record select_result := {
  sr_ret : retval;
  sr_blkstart : option Z;
  sr_blkcount : option Z;
  sr_trace : list event
}.

(** [p_blkstart] and [p_blkcount] are the two output pointers: [None] for
    [NULL], [Some v] for a location that holds [v] at the call. *)
Definition blockio_select_partition (fd : blockio_fd) (nr : Z)
    (p_blkstart p_blkcount : option Z) : select_result :=
  let fail e t :=
    {| sr_ret := Error e; sr_blkstart := Some 0; sr_blkcount := Some 0;
       sr_trace := t |} in
  match p_blkstart, p_blkcount with
  | Some _, Some _ =>
      if (nr <? 1) || (nr >? 4) then fail BLOCKIO_ERROR_IO []
      else
        match devctl_impl fd with
        | None => fail BLOCKIO_ERROR_IO [Devctl DEVCTL_BLOCKIO_IMPL]
        | Some impl =>
            match devctl_cfg fd with
            | None =>
                fail BLOCKIO_ERROR_IO
                     [Devctl DEVCTL_BLOCKIO_IMPL; Devctl DEVCTL_BLOCKIO_CFG]
            | Some cfg =>
                let lookups := [Devctl DEVCTL_BLOCKIO_IMPL; Devctl DEVCTL_BLOCKIO_CFG] in
                let '(got, buf32) := read_sectors impl (blkstart cfg) 1 in
                let rd := ReadSectors (blkstart cfg) 1 got in
                if negb (got =? 1) then fail BLOCKIO_ERROR_IO (lookups ++ [rd])
                else if negb (mbr_signature buf32 =? BLOCKIO_MBR_SIGNATURE) then
                  fail BLOCKIO_ERROR_WRONG_MBR_SIGNATURE (lookups ++ [rd])
                else
                  let i := Z.to_nat (nr - 1) in
                  let start := mbr_startsector buf32 i in
                  let count := mbr_sectors buf32 i in
                  let done t :=
                    {| sr_ret := Value (mbr_type buf32 i);
                       sr_blkstart := Some start; sr_blkcount := Some count;
                       sr_trace := t |} in
                  match sanity_check impl with
                  | Some check =>
                      let t := lookups ++ [rd; SanityCheck start count (blktotal cfg)] in
                      if negb (check start count (blktotal cfg))
                      then fail BLOCKIO_ERROR_IO t
                      else done t
                  | None =>
                      if (start >? blktotal cfg)
                         || (count >? uint32 (blktotal cfg - start))
                      then fail BLOCKIO_ERROR_IO (lookups ++ [rd])
                      else done (lookups ++ [rd])
                  end
            end
        end
  | _, _ =>
      {| sr_ret := Error BLOCKIO_ERROR_IO;
         sr_blkstart := p_blkstart; sr_blkcount := p_blkcount; sr_trace := [] |}
  end.

End Selector.
Export Selector.

(** ** Contents of the written table, as a record *)

Module Table.

(** The cleared entry, and the entry of a used slot: only the two 32-bit
    members are set. *)
Definition clear_entry : blockio_mbr_partinfo_t :=
  {| state := 0; begin_head := 0; begin_cylindersector := [0; 0];
     type := 0; end_head := 0; end_cylindersector := [0; 0];
     startsector := 0; sectors := 0 |}.

Definition used_entry (start count : Z) : blockio_mbr_partinfo_t :=
  {| state := 0; begin_head := 0; begin_cylindersector := [0; 0];
     type := 0; end_head := 0; end_cylindersector := [0; 0];
     startsector := start; sectors := count |}.

(** Entry [i] of the table for the resolved sizes [res]. *)
Definition table_entry (cfg : posix_devctl_blockio_cfg_t) (res : list Z) (i : nat)
    : blockio_mbr_partinfo_t :=
  if res !!! i =? 0 then clear_entry
  else used_entry (uint32 (blkstart cfg + RESERVED_SECTORS + sectors_of res (seq 0 i)))
                  (uint32 (res !!! i)).

Definition table_record (cfg : posix_devctl_blockio_cfg_t) (res : list Z)
    : blockio_mbr_t :=
  {| bootcode := replicate bootcode_size 0;
     partition := table_entry cfg res <$> seq 0 4;
     signature := BLOCKIO_MBR_SIGNATURE |}.

(** The test applied to an extent by [blockio_select_partition]: the
    installed [sanity_check], or else the built-in bounds test. *)
Definition extent_accepted (impl : posix_devctl_blockio_impl_t)
    (cfg : posix_devctl_blockio_cfg_t) (start count : Z) : bool :=
  match sanity_check impl with
  | Some check => check start count (blktotal cfg)
  | None =>
      negb ((start >? blktotal cfg) || (count >? uint32 (blktotal cfg - start)))
  end.

(** Sum of the resolved sizes of the slots before slot [i]. *)
Definition sectors_before (res : list Z) (i : nat) : Z :=
  total_sectors (take i res).

End Table.
Export Table.

(** ** Example devices *)

Module Examples.

(** A device whose capability calls always succeed: every read delivers
    [sector], every write transfers one sector. *)
Definition ideal_impl (sector : list Z) : posix_devctl_blockio_impl_t :=
  {| read_sectors := fun _ _ => (1, sector);
     write_sectors := fun _ _ _ => 1;
     sanity_check := None |}.

Definition disk_cfg (size total start : Z) : posix_devctl_blockio_cfg_t :=
  {| blksize := size; blktotal := total; blkstart := start |}.

(** A working disk of [total] 512-byte sectors at offset [start] whose MBR
    sector reads as [sector]. *)
Definition disk (total start : Z) (sector : list Z) : blockio_fd :=
  {| devctl_impl := Some (ideal_impl sector);
     devctl_cfg := Some (disk_cfg 512 total start) |}.

(** A working device of 1000 sectors of 1024 bytes. *)
Definition big_block_disk : blockio_fd :=
  {| devctl_impl := Some (ideal_impl zero_sector);
     devctl_cfg := Some (disk_cfg 1024 1000 0) |}.

(** A device of 4097 sectors whose capability lookup fails. *)
Definition no_impl_disk : blockio_fd :=
  {| devctl_impl := None; devctl_cfg := Some (disk_cfg 512 4097 0) |}.

(** A table with four used entries. *)
Definition example_entry (ty start count : Z) : blockio_mbr_partinfo_t :=
  {| state := 0; begin_head := 0; begin_cylindersector := [0; 0];
     type := ty; end_head := 0; end_cylindersector := [0; 0];
     startsector := start; sectors := count |}.

Definition example_mbr : blockio_mbr_t :=
  {| bootcode := replicate 446 0;
     partition := [ example_entry 0x83 1 20480; example_entry 0x0B 20481 205619;
                    example_entry 0x82 226100 822476;
                    example_entry 0xFF 0xFFFFFFFF 0xFFFFFFFF ];
     signature := BLOCKIO_MBR_SIGNATURE |}.

End Examples.
Export Examples.

(** * Properties *)

(** ** Fixed-width arithmetic *)

Section IntFacts.

Lemma sint32_small z : is_sint32 z -> sint32 z = z.
Proof.
  unfold is_sint32, sint32. intros Hz.
  rewrite Z.mod_small; lia.
Qed.

Lemma uint32_small z : is_uint32 z -> uint32 z = z.
Proof. unfold is_uint32, uint32. intros Hz. apply Z.mod_small; lia. Qed.

Lemma sint64_small z : - 2 ^ 63 <= z < 2 ^ 63 -> sint64 z = z.
Proof. unfold sint64. intros Hz. rewrite Z.mod_small; lia. Qed.

Lemma uint64_small z : 0 <= z < 2 ^ 64 -> uint64 z = z.
Proof. unfold uint64. intros Hz. apply Z.mod_small; lia. Qed.

Lemma uint32_range z : is_uint32 (uint32 z).
Proof. unfold is_uint32, uint32. apply Z.mod_pos_bound. lia. Qed.

Lemma sint32_range z : is_sint32 (sint32 z).
Proof.
  unfold is_sint32, sint32.
  pose proof (Z.mod_pos_bound (z + 2 ^ 31) (2 ^ 32)). lia.
Qed.

Lemma uint32_add_l a b : uint32 (uint32 a + b) = uint32 (a + b).
Proof. unfold uint32. apply Zplus_mod_idemp_l. Qed.

(** Masking with [0xFFFFFFFF] and converting to [int32_t] keeps a value
    that already fits 32 signed bits. *)
Lemma sint32_land_mask q : is_sint32 q -> sint32 (Z.land q 0xFFFFFFFF) = q.
Proof.
  intros Hq. change 0xFFFFFFFF with (Z.ones 32).
  rewrite Z.land_ones by lia. unfold is_sint32 in Hq. unfold sint32.
  rewrite Zplus_mod_idemp_l. rewrite Z.mod_small; lia.
Qed.

End IntFacts.

(** ** Loads and stores on a buffer *)

Section BufferFacts.

Implicit Types (buf bs : list Z) (off n : nat).

Lemma length_store off bs buf :
  (off + length bs <= length buf)%nat -> length (store off bs buf) = length buf.
Proof.
  intros Hb. unfold store.
  rewrite !length_app, length_take, length_drop. lia.
Qed.

Lemma load_store_eq off bs buf :
  (off + length bs <= length buf)%nat -> load off (length bs) (store off bs buf) = bs.
Proof.
  intros Hb. unfold load, store.
  rewrite drop_app_length'; [|rewrite length_take; lia].
  by rewrite take_app_length.
Qed.

Lemma load_store_ne off' n off bs buf :
  (off + length bs <= length buf)%nat ->
  (off' + n <= off)%nat \/ (off + length bs <= off')%nat ->
  load off' n (store off bs buf) = load off' n buf.
Proof.
  intros Hb Hd. unfold load, store.
  apply list_eq. intros k.
  rewrite !lookup_take, !lookup_drop.
  destruct (decide (k < n)%nat) as [Hk|Hk]; [|done].
  destruct Hd as [Hd|Hd].
  - rewrite lookup_app_l by (rewrite length_take; lia).
    rewrite lookup_take_lt by lia. done.
  - rewrite lookup_app_r by (rewrite length_take; lia).
    rewrite lookup_app_r by (rewrite length_take; lia).
    rewrite length_take, lookup_drop. f_equal. lia.
Qed.

Lemma length_zero_sector : length zero_sector = 512%nat.
Proof. unfold zero_sector. by rewrite length_replicate. Qed.

Lemma load_zero_sector off n :
  (off + n <= 512)%nat -> load off n zero_sector = replicate n 0.
Proof.
  intros Hb. unfold load, zero_sector.
  change (Z.to_nat BLOCKIO_DEFAULT_SECTORSIZE) with 512%nat.
  rewrite drop_replicate, take_replicate. f_equal. lia.
Qed.

End BufferFacts.

(** ** Little-endian accessors *)

Section EndianFacts.

Lemma land_255 v : Z.land v 255 = v mod 256.
Proof. change 255 with (Z.ones 8). rewrite Z.land_ones by lia. done. Qed.

Lemma little_bytes32_arith v :
  little_bytes32 v =
  [v mod 256; (v / 2 ^ 8) mod 256; (v / 2 ^ 16) mod 256; (v / 2 ^ 24) mod 256].
Proof.
  unfold little_bytes32.
  rewrite !land_255, !Z.shiftr_div_pow2 by lia. done.
Qed.

Lemma little_bytes16_arith v :
  little_bytes16 v = [v mod 256; (v / 2 ^ 8) mod 256].
Proof.
  unfold little_bytes16.
  rewrite !land_255, !Z.shiftr_div_pow2 by lia. done.
Qed.

Lemma length_little_bytes32 v : length (little_bytes32 v) = 4%nat.
Proof. done. Qed.

Lemma length_little_bytes16 v : length (little_bytes16 v) = 2%nat.
Proof. done. Qed.

Lemma little_value_cons b bs : little_value (b :: bs) = b + 2 ^ 8 * little_value bs.
Proof. cbn [little_value]. rewrite Z.shiftl_mul_pow2 by lia. lia. Qed.

Lemma little_value_nil : little_value [] = 0.
Proof. done. Qed.

(** What the write helper stores, the read helper returns. *)
Lemma little_value_bytes32 v : is_uint32 v -> little_value (little_bytes32 v) = v.
Proof.
  unfold is_uint32. intros Hv.
  rewrite little_bytes32_arith, !little_value_cons, little_value_nil.
  Z.div_mod_to_equations. lia.
Qed.

Lemma little_value_bytes16 v : 0 <= v < 2 ^ 16 -> little_value (little_bytes16 v) = v.
Proof.
  intros Hv.
  rewrite little_bytes16_arith, !little_value_cons, little_value_nil.
  Z.div_mod_to_equations. lia.
Qed.

Lemma read_write_little32 buf off v :
  (off + 4 <= length buf)%nat -> is_uint32 v ->
  read_little32from16 (write_little32to16 buf off v) off = v.
Proof.
  intros Hb Hv. unfold read_little32from16, write_little32to16.
  rewrite <- (length_little_bytes32 v) at 1.
  rewrite load_store_eq by (rewrite length_little_bytes32; lia).
  by apply little_value_bytes32.
Qed.

Lemma read_write_little16 buf off v :
  (off + 2 <= length buf)%nat -> 0 <= v < 2 ^ 16 ->
  read_little16from16 (write_little16to16 buf off v) off = v.
Proof.
  intros Hb Hv. unfold read_little16from16, write_little16to16.
  rewrite <- (length_little_bytes16 v) at 1.
  rewrite load_store_eq by (rewrite length_little_bytes16; lia).
  by apply little_value_bytes16.
Qed.

Lemma length_write_little32 buf off v :
  (off + 4 <= length buf)%nat -> length (write_little32to16 buf off v) = length buf.
Proof. intros Hb. apply length_store. by rewrite length_little_bytes32. Qed.

Lemma length_write_little16 buf off v :
  (off + 2 <= length buf)%nat -> length (write_little16to16 buf off v) = length buf.
Proof. intros Hb. apply length_store. by rewrite length_little_bytes16. Qed.

Lemma load_write_little32_ne off' n buf off v :
  (off + 4 <= length buf)%nat ->
  (off' + n <= off)%nat \/ (off + 4 <= off')%nat ->
  load off' n (write_little32to16 buf off v) = load off' n buf.
Proof.
  intros Hb Hd. unfold write_little32to16.
  apply load_store_ne; rewrite length_little_bytes32; done.
Qed.

Lemma load_write_little16_ne off' n buf off v :
  (off + 2 <= length buf)%nat ->
  (off' + n <= off)%nat \/ (off + 2 <= off')%nat ->
  load off' n (write_little16to16 buf off v) = load off' n buf.
Proof.
  intros Hb Hd. unfold write_little16to16.
  apply load_store_ne; rewrite length_little_bytes16; done.
Qed.

End EndianFacts.

(** ** The MBR codec *)

Section CodecFacts.

Lemma length_encode_partinfo p :
  partinfo_wf p -> length (encode_partinfo p) = partinfo_size.
Proof.
  intros [Hb He _ _]. unfold encode_partinfo.
  rewrite !length_app, Hb, He. done.
Qed.

Lemma lookup_total_app_add (pre l : list Z) (k : nat) :
  (pre ++ l) !!! (length pre + k)%nat = l !!! k.
Proof. rewrite lookup_total_app_r by lia. f_equal. lia. Qed.

(** An entry image placed at the offset of entry [i] decodes to the entry. *)
Lemma decode_encode_partinfo pre post p i :
  length pre = partition_off i -> partinfo_wf p ->
  decode_partinfo (pre ++ encode_partinfo p ++ post) i = p.
Proof.
  intros Hpre [Hb He Hs Hn].
  destruct p as [st bh bcs ty eh ecs ss sn]; cbn [begin_cylindersector
    end_cylindersector startsector sectors] in *.
  destruct bcs as [|c0 [|c1 [|]]]; try done.
  destruct ecs as [|d0 [|d1 [|]]]; try done.
  unfold decode_partinfo, read_little32from16, load.
  rewrite <- Hpre.
  rewrite !lookup_total_app_add, !drop_app_add' by done.
  unfold encode_partinfo, begin_cylindersector_off, end_cylindersector_off,
    startsector_off, sectors_off.
  cbn [state begin_head begin_cylindersector type end_head end_cylindersector
       startsector sectors].
  rewrite !little_bytes32_arith.
  unfold state_off, begin_head_off, type_off, end_head_off.
  cbn [app drop take lookup_total list_lookup_total].
  rewrite <- !little_bytes32_arith.
  rewrite !little_value_bytes32 by done.
  done.
Qed.

End CodecFacts.

Section CodecRoundTrip.

Lemma load_app_middle (pre x post : list Z) :
  load (length pre) (length x) (pre ++ x ++ post) = x.
Proof. unfold load. by rewrite drop_app_length, take_app_length. Qed.

(** C8: encoding an MBR record into a sector buffer and decoding that
    buffer gives back the record, for every record whose members fit their
    C types: the boot code bytes and the byte members come back unchanged,
    and the two 32-bit members of each entry and the 16-bit signature,
    stored in little-endian form, are recovered by the read helpers; in
    any buffer, what a write helper stores at an offset the matching read
    helper returns from that offset. *)
Theorem decode_encode_roundtrip (m : blockio_mbr_t) :
  mbr_wf m ->
  decode (encode m) = m
  /\ (forall buf off v,
        (off + 4 <= length buf)%nat -> is_uint32 v ->
        read_little32from16 (write_little32to16 buf off v) off = v)
  /\ (forall buf off v,
        (off + 2 <= length buf)%nat -> 0 <= v < 2 ^ 16 ->
        read_little16from16 (write_little16to16 buf off v) off = v).
Proof.
  intros [Hbc Hcnt Hps Hsg].
  split; [|split; [apply read_write_little32|apply read_write_little16]].
  destruct m as [bc ps sg]; cbn [bootcode partition signature] in *.
  destruct ps as [|p0 [|p1 [|p2 [|p3 [|]]]]]; try done.
  apply Forall_cons in Hps as [H0 Hps].
  apply Forall_cons in Hps as [H1 Hps].
  apply Forall_cons in Hps as [H2 Hps].
  apply Forall_cons in Hps as [H3 _].
  pose proof (length_encode_partinfo _ H0) as L0.
  pose proof (length_encode_partinfo _ H1) as L1.
  pose proof (length_encode_partinfo _ H2) as L2.
  pose proof (length_encode_partinfo _ H3) as L3.
  unfold decode, encode; cbn [bootcode partition signature fmap list_fmap concat seq].
  rewrite app_nil_r.
  set (e0 := encode_partinfo p0) in *. set (e1 := encode_partinfo p1) in *.
  set (e2 := encode_partinfo p2) in *. set (e3 := encode_partinfo p3) in *.
  set (s2 := little_bytes16 sg).
  f_equal.
  - unfold load. rewrite drop_0. by apply take_app_length'.
  - f_equal; [|f_equal; [|f_equal; [|f_equal]]].
    + rewrite <- (app_assoc e0). apply decode_encode_partinfo; [|done].
      rewrite Hbc. done.
    + replace (bc ++ (e0 ++ e1 ++ e2 ++ e3) ++ s2)
        with ((bc ++ e0) ++ e1 ++ (e2 ++ e3 ++ s2))
        by (rewrite <- !app_assoc; done).
      apply decode_encode_partinfo; [|done].
      rewrite length_app, Hbc, L0. done.
    + replace (bc ++ (e0 ++ e1 ++ e2 ++ e3) ++ s2)
        with ((bc ++ e0 ++ e1) ++ e2 ++ (e3 ++ s2))
        by (rewrite <- !app_assoc; done).
      apply decode_encode_partinfo; [|done].
      rewrite !length_app, Hbc, L0, L1. done.
    + replace (bc ++ (e0 ++ e1 ++ e2 ++ e3) ++ s2)
        with ((bc ++ e0 ++ e1 ++ e2) ++ e3 ++ s2)
        by (rewrite <- !app_assoc; done).
      apply decode_encode_partinfo; [|done].
      rewrite !length_app, Hbc, L0, L1, L2. done.
  - unfold read_little16from16.
    replace (bc ++ (e0 ++ e1 ++ e2 ++ e3) ++ s2)
      with ((bc ++ e0 ++ e1 ++ e2 ++ e3) ++ s2 ++ [])
      by (rewrite app_nil_r, <- !app_assoc; done).
    replace signature_off with (length (bc ++ e0 ++ e1 ++ e2 ++ e3))
      by (rewrite !length_app, Hbc, L0, L1, L2, L3; done).
    change 2%nat with (length s2).
    rewrite load_app_middle. by apply little_value_bytes16.
Qed.

(** The round trip at a table with four used entries. *)
Lemma decode_encode_roundtrip_witness :
  mbr_wf example_mbr /\ decode (encode example_mbr) = example_mbr.
Proof.
  assert (mbr_wf example_mbr) as Hwf.
  { constructor.
    - reflexivity.
    - reflexivity.
    - repeat (apply Forall_cons; split); try apply Forall_nil;
        (split; try reflexivity; unfold is_uint32; cbn; lia).
    - cbn; unfold BLOCKIO_MBR_SIGNATURE; lia. }
  split; [exact Hwf|].
  apply (proj1 (decode_encode_roundtrip example_mbr Hwf)).
Defined.

End CodecRoundTrip.

(** ** The table built by the writer *)

Section TableFacts.

Variable size : list Z.

Lemma partition_off_bound i : (i < 4)%nat -> (partition_off i + partinfo_size <= 510)%nat.
Proof. unfold partition_off, bootcode_size, partinfo_size. lia. Qed.

Lemma uint32_add_r a b : uint32 (a + uint32 b) = uint32 (a + b).
Proof. unfold uint32. apply Zplus_mod_idemp_r. Qed.

Lemma write_entry_zero buf start i :
  size !!! i = 0 -> write_entry size (buf, start) i = (buf, start).
Proof. intros Hz. unfold write_entry. by rewrite Hz. Qed.

Lemma write_entry_length buf start i :
  (i < 4)%nat -> length buf = 512%nat ->
  length (write_entry size (buf, start) i).1 = 512%nat.
Proof.
  intros Hi Hlen. pose proof (partition_off_bound i Hi) as Hb.
  unfold partinfo_size in Hb.
  unfold write_entry, startsector_off, sectors_off.
  destruct (size !!! i =? 0); cbn [negb fst]; [done|].
  rewrite !length_write_little32; rewrite ?length_write_little32; lia.
Qed.

Lemma write_entry_start buf start i :
  is_uint32 start ->
  (write_entry size (buf, start) i).2 =
  uint32 (start + (if size !!! i =? 0 then 0 else size !!! i)).
Proof.
  intros Hs. unfold write_entry.
  destruct (size !!! i =? 0); cbn [negb snd]; [|done].
  rewrite Z.add_0_r. symmetry. by apply uint32_small.
Qed.

(** A step leaves every byte outside the two 32-bit members of its own
    entry alone. *)
Lemma write_entry_frame buf start i off n :
  (i < 4)%nat -> length buf = 512%nat ->
  (off + n <= partition_off i + startsector_off)%nat
    \/ (partition_off i + partinfo_size <= off)%nat ->
  load off n (write_entry size (buf, start) i).1 = load off n buf.
Proof.
  intros Hi Hlen Hd. pose proof (partition_off_bound i Hi) as Hb.
  unfold partinfo_size, startsector_off in *.
  unfold write_entry, startsector_off, sectors_off.
  destruct (size !!! i =? 0); cbn [negb fst]; [done|].
  rewrite load_write_little32_ne; [|rewrite length_write_little32; lia|lia].
  rewrite load_write_little32_ne; [done|lia|lia].
Qed.

(** A step for a used slot stores the running start and the size. *)
Lemma write_entry_fields buf start i :
  (i < 4)%nat -> length buf = 512%nat -> is_uint32 start -> size !!! i <> 0 ->
  let buf' := (write_entry size (buf, start) i).1 in
  mbr_startsector buf' i = start /\ mbr_sectors buf' i = uint32 (size !!! i).
Proof.
  intros Hi Hlen Hs Hnz. pose proof (partition_off_bound i Hi) as Hb.
  unfold partinfo_size in Hb.
  unfold write_entry. apply Z.eqb_neq in Hnz. rewrite Hnz. cbn [negb fst].
  unfold mbr_startsector, mbr_sectors, startsector_off, sectors_off. split.
  - unfold read_little32from16 at 1.
    rewrite load_write_little32_ne; [|rewrite length_write_little32; lia|lia].
    apply read_write_little32; [lia|done].
  - apply read_write_little32; [rewrite length_write_little32; lia|].
    apply uint32_range.
Qed.

Lemma foldl_write_entry_length js st :
  Forall (fun j => (j < 4)%nat) js -> length st.1 = 512%nat ->
  length (foldl (write_entry size) st js).1 = 512%nat.
Proof.
  revert st. induction js as [|j js IH]; intros [buf start] Hjs Hlen; [done|].
  apply Forall_cons in Hjs as [Hj Hjs]. cbn [foldl].
  apply IH; [done|].
  destruct (write_entry size (buf, start) j) as [buf' start'] eqn:E.
  change buf' with (buf', start').1. rewrite <- E. by apply write_entry_length.
Qed.

Lemma foldl_write_entry_start js st :
  is_uint32 st.2 ->
  (foldl (write_entry size) st js).2 = uint32 (st.2 + sectors_of size js).
Proof.
  revert st. induction js as [|j js IH]; intros [buf start] Hs; cbn [snd] in *.
  - cbn. rewrite Z.add_0_r. symmetry. by apply uint32_small.
  - cbn [foldl sectors_of foldr].
    destruct (write_entry size (buf, start) j) as [buf' start'] eqn:E.
    assert (start' = uint32 (start + (if size !!! j =? 0 then 0 else size !!! j)))
      as Hs'.
    { change start' with (buf', start').2. rewrite <- E. by apply write_entry_start. }
    rewrite IH; cbn [snd]; [|rewrite Hs'; apply uint32_range].
    rewrite Hs', uint32_add_l. f_equal. fold (sectors_of size js). lia.
Qed.

Lemma foldl_write_entry_frame js st off n :
  Forall (fun j => (j < 4)%nat /\
            ((off + n <= partition_off j + startsector_off)%nat
             \/ (partition_off j + partinfo_size <= off)%nat)) js ->
  length st.1 = 512%nat ->
  load off n (foldl (write_entry size) st js).1 = load off n st.1.
Proof.
  revert st. induction js as [|j js IH]; intros [buf start] Hjs Hlen; [done|].
  apply Forall_cons in Hjs as [[Hj Hd] Hjs]. cbn [foldl fst] in *.
  destruct (write_entry size (buf, start) j) as [buf' start'] eqn:E.
  assert (buf' = (write_entry size (buf, start) j).1) as Hb by (by rewrite E).
  rewrite IH; cbn [fst]; [|done|].
  - rewrite Hb. by apply write_entry_frame.
  - rewrite Hb. by apply write_entry_length.
Qed.

End TableFacts.

Section BuildTable.

Variables (cfg : posix_devctl_blockio_cfg_t) (size : list Z).

Let start0 : Z := uint32 (blkstart cfg + RESERVED_SECTORS).

(** State of the loop before it handles slot [i]. *)
Let before (i : nat) : list Z * Z :=
  foldl (write_entry size) (zero_sector, start0) (seq 0 i).

Lemma seq_split_at i :
  (i < 4)%nat -> seq 0 4 = seq 0 i ++ [i] ++ seq (S i) (3 - i).
Proof. intros Hi. destruct i as [|[|[|[|]]]]; done || lia. Qed.

Lemma before_length i : (i <= 4)%nat -> length (before i).1 = 512%nat.
Proof.
  intros Hi. apply foldl_write_entry_length; [|apply length_zero_sector].
  apply Forall_seq. intros; lia.
Qed.

Lemma before_start i :
  (before i).2 = uint32 (blkstart cfg + RESERVED_SECTORS + sectors_of size (seq 0 i)).
Proof.
  unfold before. rewrite foldl_write_entry_start by apply uint32_range.
  cbn [snd]. unfold start0. by rewrite uint32_add_l.
Qed.

(** The bytes of entry [i] are still clear when the loop reaches it. *)
Lemma before_load i k n :
  (i < 4)%nat -> (k + n <= partinfo_size)%nat ->
  load (partition_off i + k) n (before i).1 = replicate n 0.
Proof.
  intros Hi Hk. pose proof (partition_off_bound i Hi) as Hb.
  unfold before. rewrite foldl_write_entry_frame.
  - cbn [fst]. apply load_zero_sector. lia.
  - apply Forall_seq. intros j Hj. split; [lia|]. right.
    unfold partition_off, partinfo_size. lia.
  - apply length_zero_sector.
Qed.

(** The bytes of entry [i] in the finished table are those left by the
    loop step for slot [i]. *)
Lemma build_table_load i k n :
  (i < 4)%nat -> (k + n <= partinfo_size)%nat ->
  load (partition_off i + k) n (build_table cfg size) =
  load (partition_off i + k) n (write_entry size (before i) i).1.
Proof.
  intros Hi Hk. pose proof (partition_off_bound i Hi) as Hb.
  unfold build_table. fold start0.
  rewrite (seq_split_at i Hi), !foldl_app. fold (before i). cbn [foldl].
  assert (length (write_entry size (before i) i).1 = 512%nat) as Hlen.
  { destruct (before i) as [b s] eqn:E. apply write_entry_length; [done|].
    change b with (b, s).1. rewrite <- E. apply before_length. lia. }
  set (st := write_entry size (before i) i) in *.
  assert (Forall (fun j => (j < 4)%nat) (seq (S i) (3 - i))) as Hjs.
  { apply Forall_seq. intros; lia. }
  pose proof (foldl_write_entry_length size _ st Hjs Hlen) as Hlen'.
  assert (load (partition_off i + k) n (foldl (write_entry size) st (seq (S i) (3 - i))).1
          = load (partition_off i + k) n st.1) as Hfr.
  { apply foldl_write_entry_frame; [|done].
    apply Forall_seq. intros j Hj. split; [lia|]. left.
    unfold partition_off, partinfo_size, startsector_off in *. lia. }
  destruct (foldl (write_entry size) st (seq (S i) (3 - i))) as [buf s] eqn:E.
  cbn [fst] in *. rewrite <- Hfr.
  apply load_write_little16_ne; unfold signature_off, bootcode_size, partinfo_size in *; lia.
Qed.

Lemma build_table_length : length (build_table cfg size) = 512%nat.
Proof.
  unfold build_table. fold start0.
  assert (length (foldl (write_entry size) (zero_sector, start0) (seq 0 4)).1 = 512%nat)
    as Hlen by (apply (before_length 4); lia).
  destruct (foldl (write_entry size) (zero_sector, start0) (seq 0 4)) as [buf s].
  cbn [fst] in Hlen. rewrite length_write_little16; [done|].
  unfold signature_off, bootcode_size, partinfo_size. lia.
Qed.

Lemma build_table_signature : mbr_signature (build_table cfg size) = BLOCKIO_MBR_SIGNATURE.
Proof.
  unfold build_table. fold start0.
  assert (length (foldl (write_entry size) (zero_sector, start0) (seq 0 4)).1 = 512%nat)
    as Hlen by (apply (before_length 4); lia).
  destruct (foldl (write_entry size) (zero_sector, start0) (seq 0 4)) as [buf s].
  cbn [fst] in Hlen. unfold mbr_signature.
  apply read_write_little16.
  - unfold signature_off, bootcode_size, partinfo_size. lia.
  - unfold BLOCKIO_MBR_SIGNATURE. lia.
Qed.

(** An unused slot leaves its entry cleared. *)
Lemma build_table_unused i :
  (i < 4)%nat -> size !!! i = 0 ->
  mbr_entry (build_table cfg size) i = replicate partinfo_size 0.
Proof.
  intros Hi Hz. unfold mbr_entry.
  rewrite <- (Nat.add_0_r (partition_off i)).
  rewrite build_table_load by (done || lia).
  destruct (before i) as [b s] eqn:E.
  rewrite write_entry_zero by done. rewrite <- E.
  apply before_load; [done|lia].
Qed.

(** A used slot holds the running start, which is the base plus the sizes
    of the slots before it, and its size; its other bytes are clear. *)
Lemma build_table_used i :
  (i < 4)%nat -> size !!! i <> 0 ->
  mbr_startsector (build_table cfg size) i =
    uint32 (blkstart cfg + RESERVED_SECTORS + sectors_of size (seq 0 i))
  /\ mbr_sectors (build_table cfg size) i = uint32 (size !!! i)
  /\ load (partition_off i) startsector_off (build_table cfg size)
     = replicate startsector_off 0.
Proof.
  intros Hi Hnz.
  pose proof (before_length i ltac:(lia)) as Hlen.
  pose proof (before_start i) as Hst.
  destruct (before i) as [b s] eqn:E. cbn [fst snd] in *.
  assert (is_uint32 s) as Hs by (rewrite Hst; apply uint32_range).
  destruct (write_entry_fields size b s i Hi Hlen Hs Hnz) as [F1 F2].
  unfold mbr_startsector, mbr_sectors, read_little32from16 in *.
  split; [|split].
  - rewrite build_table_load by (done || (unfold partinfo_size, startsector_off; lia)).
    rewrite E, F1. done.
  - rewrite build_table_load by (done || (unfold partinfo_size, sectors_off; lia)).
    rewrite E, F2. done.
  - rewrite <- (Nat.add_0_r (partition_off i)).
    rewrite build_table_load by (done || (unfold partinfo_size, startsector_off; lia)).
    rewrite E, write_entry_frame; [|done|done|left; lia].
    change b with (b, s).1. rewrite <- E.
    apply before_load; [done|unfold partinfo_size, startsector_off; lia].
Qed.

End BuildTable.

(** ** Packing of the written table *)

Section Packing.

Lemma sectors_of_app size js ks :
  sectors_of size (js ++ ks) = sectors_of size js + sectors_of size ks.
Proof.
  unfold sectors_of.
  induction js as [|j js IH]; cbn [app foldr]; [lia|]. rewrite IH. lia.
Qed.

Lemma sectors_of_unused size js :
  Forall (fun j => size !!! j = 0) js -> sectors_of size js = 0.
Proof.
  induction 1 as [|j js Hj _ IH]; [done|].
  cbn [sectors_of foldr]. fold (sectors_of size js). rewrite IH, Hj. done.
Qed.

Lemma sectors_of_used size j :
  size !!! j <> 0 -> sectors_of size [j] = size !!! j.
Proof.
  intros Hnz. cbn [sectors_of foldr]. apply Z.eqb_neq in Hnz. rewrite Hnz. lia.
Qed.

(** The table built from resolved sizes is packed from [blkstart + 1]. *)
Lemma build_table_packed cfg size :
  packed_from (blkstart cfg + RESERVED_SECTORS) size (build_table cfg size).
Proof.
  repeat split.
  - intros i Hi Hz. by apply build_table_unused.
  - intros i Hi Hnz. by apply build_table_used.
  - intros i Hi Hnz Hbefore.
    destruct (build_table_used cfg size i Hi Hnz) as [-> _].
    rewrite sectors_of_unused; [by rewrite Z.add_0_r|].
    apply Forall_seq. intros j Hj. apply Hbefore. lia.
  - intros i j Hij Hj Hi Hnz Hbetween.
    destruct (build_table_used cfg size i ltac:(lia) Hi) as (-> & -> & _).
    destruct (build_table_used cfg size j Hj Hnz) as [-> _].
    assert (sectors_of size (seq 0 j) = sectors_of size (seq 0 i) + size !!! i) as ->.
    { replace j with (i + (1 + (j - i - 1)))%nat at 1 by lia.
      rewrite !seq_app, !sectors_of_app. cbn [seq]. rewrite Nat.add_0_l.
      rewrite sectors_of_used by done.
      rewrite (sectors_of_unused size (seq (i + 1) _)); [lia|].
      apply Forall_seq. intros k Hk. apply Hbetween; lia. }
    rewrite uint32_add_l, uint32_add_r. f_equal. lia.
Qed.

(** A call that returns a value has made exactly one sector transfer: the
    write, at sector 0, of the table built from the resolved sizes. *)
Lemma write_partitiontable_value fd size mb :
  tr_ret (blockio_write_partitiontable fd size) = Value mb ->
  exists impl cfg,
    devctl_impl fd = Some impl /\ devctl_cfg fd = Some cfg /\
    (exists left, partition_sizing cfg size
                  = Sized (tr_size (blockio_write_partitiontable fd size)) left) /\
    tr_trace (blockio_write_partitiontable fd size) =
      [Devctl DEVCTL_BLOCKIO_IMPL; Devctl DEVCTL_BLOCKIO_CFG;
       WriteSectors (build_table cfg (tr_size (blockio_write_partitiontable fd size)))
                    0 1 1].
Proof.
  unfold blockio_write_partitiontable.
  destruct (devctl_impl fd) as [impl|]; [|done].
  destruct (devctl_cfg fd) as [cfg|]; [|done].
  destruct (partition_sizing cfg size) as [res left|e res|] eqn:Hsz; cbn; [|done..].
  destruct (write_sectors impl (build_table cfg res) 0 1 =? 1) eqn:Hw; [|done].
  apply Z.eqb_eq in Hw. rewrite Hw. intros _.
  exists impl, cfg. split; [done|]. split; [done|]. split; [by exists left|done].
Qed.

(** C3 (amended): in the MBR written by a successful
    [blockio_write_partitiontable], the first slot with a nonzero resolved
    size starts at sector [cfg.blkstart + RESERVED_SECTORS] (not at sector
    1 unless [blkstart] is 0), every later slot with a nonzero resolved size
    starts at the start of the nonzero slot before it plus that slot's
    sector count, slots of resolved size zero in between notwithstanding,
    and a slot of resolved size zero (an unused slot, or a relative slot
    whose share rounds down to zero) has a fully cleared entry; starts and
    counts are 32-bit unsigned values.  When all four resolved sizes are
    nonzero, slot 0 starts at [cfg.blkstart + RESERVED_SECTORS] and each
    slot starts where the slot before it ends. *)
Theorem write_partitiontable_packed fd size mb :
  tr_ret (blockio_write_partitiontable fd size) = Value mb ->
  exists cfg buf,
    devctl_cfg fd = Some cfg /\
    sector_io (tr_trace (blockio_write_partitiontable fd size))
      = [WriteSectors buf 0 1 1] /\
    packed_from (blkstart cfg + RESERVED_SECTORS)
                (tr_size (blockio_write_partitiontable fd size)) buf /\
    ((forall i, (i < 4)%nat -> tr_size (blockio_write_partitiontable fd size) !!! i <> 0) ->
     mbr_startsector buf 0 = uint32 (blkstart cfg + RESERVED_SECTORS)
     /\ forall i, (i < 3)%nat ->
          mbr_startsector buf (S i)
          = uint32 (mbr_startsector buf i + mbr_sectors buf i)).
Proof.
  intros Hret.
  destruct (write_partitiontable_value fd size mb Hret) as (impl & cfg & _ & Hcfg & _ & Ht).
  exists cfg, (build_table cfg (tr_size (blockio_write_partitiontable fd size))).
  split; [done|]. split; [by rewrite Ht|].
  pose proof (build_table_packed cfg (tr_size (blockio_write_partitiontable fd size)))
    as Hpacked.
  split; [exact Hpacked|].
  destruct Hpacked as (_ & _ & Hfirst & Hnext).
  intros Hall. split.
  - apply Hfirst; [lia|apply Hall; lia|]. intros j Hj. lia.
  - intros i Hi. apply Hnext; [lia|lia|apply Hall; lia|apply Hall; lia|].
    intros k Hk1 Hk2. lia.
Qed.

(** The packing rule on a specification whose four slots all resolve to a
    nonzero size. *)
Lemma write_partitiontable_packed_witness :
  exists cfg buf,
    devctl_cfg (disk 1048576 0 zero_sector) = Some cfg /\
    sector_io (tr_trace (blockio_write_partitiontable (disk 1048576 0 zero_sector)
                                                     [10; -1; -4; 20]))
      = [WriteSectors buf 0 1 1] /\
    packed_from (blkstart cfg + RESERVED_SECTORS)
      (tr_size (blockio_write_partitiontable (disk 1048576 0 zero_sector)
                                             [10; -1; -4; 20])) buf /\
    ((forall i, (i < 4)%nat ->
        tr_size (blockio_write_partitiontable (disk 1048576 0 zero_sector)
                                              [10; -1; -4; 20]) !!! i <> 0) ->
     mbr_startsector buf 0 = uint32 (blkstart cfg + RESERVED_SECTORS)
     /\ forall i, (i < 3)%nat ->
          mbr_startsector buf (S i)
          = uint32 (mbr_startsector buf i + mbr_sectors buf i)).
Proof.
  apply (write_partitiontable_packed (disk 1048576 0 zero_sector) [10; -1; -4; 20] 0).
  vm_compute. reflexivity.
Defined.

(** C3 as stated fails in two ways.  On a device whose address space
    starts at sector 63 the only used slot starts at sector 64, not at the
    reserved-sector offset 1.  On a device of 1000 sectors with
    [blkstart = 0], the all-nonzero specification [-1, -1000, -1000, -1000]
    succeeds with resolved sizes [0, 332, 332, 332]: slot 0 is left cleared,
    so its start sector is 0 and not the reserved-sector offset. *)
Lemma write_partitiontable_start_counterexample :
  (let r := blockio_write_partitiontable (disk 4097 63 zero_sector) [1; 0; 0; 0] in
   tr_ret r = Value 1 /\
   exists buf,
     sector_io (tr_trace r) = [WriteSectors buf 0 1 1] /\
     mbr_startsector buf 0 = 64 /\
     ~ packed_from RESERVED_SECTORS (tr_size r) buf)
  /\ (let r := blockio_write_partitiontable (disk 1000 0 zero_sector)
                                            [-1; -1000; -1000; -1000] in
      Forall (fun s => s <> 0) [-1; -1000; -1000; -1000] /\
      tr_ret r = Value 0 /\
      tr_size r = [0; 332; 332; 332] /\
      exists buf,
        sector_io (tr_trace r) = [WriteSectors buf 0 1 1] /\
        mbr_startsector buf 0 = 0 /\
        mbr_startsector buf 0 <> RESERVED_SECTORS /\
        mbr_startsector buf 1 = 1).
Proof.
  split.
  - cbv zeta. split; [by vm_compute|].
    eexists. split; [vm_compute; reflexivity|].
    split; [by vm_compute|].
    intros (_ & _ & Hfirst & _).
    specialize (Hfirst 0%nat ltac:(lia)).
    vm_compute in Hfirst.
    assert (64 = 1) as Habs; [|done].
    apply Hfirst; [done|]. intros j Hj. lia.
  - cbv zeta.
    split.
    { repeat (apply Forall_cons; split; [done|]). by apply Forall_nil. }
    split; [by vm_compute|]. split; [by vm_compute|].
    eexists. split; [vm_compute; reflexivity|].
    split; [by vm_compute|]. split; [by vm_compute|]. by vm_compute.
Qed.

End Packing.

(** ** The selector *)

Section SelectorFacts.

(** C7 (amended): for every partition number outside 1..4,
    [blockio_select_partition] fails with [BLOCKIO_ERROR_IO], the code it
    also returns for device failures (the source has no code for an
    invalid argument), and it does so before any call leaves the function:
    no capability lookup and no sector read. *)
Theorem select_partition_bad_nr fd nr p_blkstart p_blkcount :
  ~ (1 <= nr <= 4) ->
  sr_ret (blockio_select_partition fd nr p_blkstart p_blkcount)
    = Error BLOCKIO_ERROR_IO
  /\ sr_trace (blockio_select_partition fd nr p_blkstart p_blkcount) = [].
Proof.
  intros Hnr. unfold blockio_select_partition.
  destruct p_blkstart, p_blkcount; try done.
  assert ((nr <? 1) || (nr >? 4) = true) as ->; [|done].
  apply orb_true_iff. rewrite Z.ltb_lt, Z.gtb_gt. lia.
Qed.

(** Partition number 5 on a working disk. *)
Lemma select_partition_bad_nr_witness :
  sr_ret (blockio_select_partition (disk 2048 0 zero_sector) 5 (Some 0) (Some 0))
    = Error BLOCKIO_ERROR_IO
  /\ sr_trace (blockio_select_partition (disk 2048 0 zero_sector) 5 (Some 0) (Some 0))
    = [].
Proof.
  apply (select_partition_bad_nr (disk 2048 0 zero_sector) 5 (Some 0) (Some 0)).
  lia.
Defined.

(** C7 as stated fails: for partition number 5 the error returned is
    [BLOCKIO_ERROR_IO], which is not of the class [InvalidArgument]. *)
Lemma select_partition_bad_nr_counterexample :
  let r := blockio_select_partition (disk 2048 0 zero_sector) 5 (Some 0) (Some 0) in
  sr_ret r = Error BLOCKIO_ERROR_IO /\
  ~ (exists e, sr_ret r = Error e /\ classify e = InvalidArgument).
Proof.
  cbv zeta. split; [done|].
  intros (e & He & Hc). vm_compute in He.
  injection He as <-. discriminate Hc.
Qed.

(** C4: with non-null output pointers, every error return of
    [blockio_select_partition] leaves 0 in both [*blkstart] and
    [*blkcount]; and when, for a partition number in 1..4, the sector read
    at the device's base carries a signature other than 0xAA55, the call
    fails with [BLOCKIO_ERROR_WRONG_MBR_SIGNATURE] and both outputs 0. *)
Theorem select_partition_error_zeroes fd nr v w :
  1 <= nr <= 4 ->
  let r := blockio_select_partition fd nr (Some v) (Some w) in
  (forall e, sr_ret r = Error e -> sr_blkstart r = Some 0 /\ sr_blkcount r = Some 0)
  /\ (forall impl cfg buf,
        devctl_impl fd = Some impl -> devctl_cfg fd = Some cfg ->
        read_sectors impl (blkstart cfg) 1 = (1, buf) ->
        mbr_signature buf <> BLOCKIO_MBR_SIGNATURE ->
        sr_ret r = Error BLOCKIO_ERROR_WRONG_MBR_SIGNATURE
        /\ sr_blkstart r = Some 0 /\ sr_blkcount r = Some 0).
Proof.
  intros Hnr. cbv zeta. unfold blockio_select_partition.
  assert ((nr <? 1) || (nr >? 4) = false) as ->.
  { apply orb_false_iff. rewrite Z.ltb_ge, Z.gtb_ltb, Z.ltb_ge. lia. }
  split.
  - intros e.
    destruct (devctl_impl fd) as [impl|]; [|done].
    destruct (devctl_cfg fd) as [cfg|]; [|done].
    destruct (read_sectors impl (blkstart cfg) 1) as [got buf].
    destruct (negb (got =? 1)); [done|].
    destruct (negb (mbr_signature buf =? BLOCKIO_MBR_SIGNATURE)); [done|].
    destruct (sanity_check impl) as [check|].
    + destruct (negb (check _ _ _)); done.
    + destruct (_ || _); done.
  - intros impl cfg buf -> -> -> Hsig.
    apply Z.eqb_neq in Hsig. rewrite Hsig. done.
Qed.

(** A cleared first sector has signature 0. *)
Lemma select_partition_error_zeroes_witness :
  let r := blockio_select_partition (disk 2048 0 zero_sector) 2 (Some 7) (Some 9) in
  sr_ret r = Error BLOCKIO_ERROR_WRONG_MBR_SIGNATURE
  /\ sr_blkstart r = Some 0 /\ sr_blkcount r = Some 0.
Proof.
  cbv zeta.
  refine (proj2 (select_partition_error_zeroes (disk 2048 0 zero_sector) 2 7 9 _)
                (ideal_impl zero_sector) (disk_cfg 512 2048 0) zero_sector _ _ _ _).
  - lia.
  - reflexivity.
  - reflexivity.
  - reflexivity.
  - vm_compute. discriminate.
Defined.

End SelectorFacts.

(** ** The type patcher *)

(** Case analysis of a membership in an explicit trace. *)
Ltac trace_mem H :=
  cbn [app] in H;
  repeat (apply elem_of_cons in H as [H|H]; [try discriminate H|]);
  try (by apply elem_of_nil in H).

Section PatcherFacts.

Lemma partition_type_addr_valid nr :
  1 <= nr <= 4 ->
  partition_type_addr (nr - 1)
    = Z.of_nat (partition_off (Z.to_nat (nr - 1)) + type_off)
  /\ 0 <= partition_type_addr (nr - 1) < BLOCKIO_DEFAULT_SECTORSIZE.
Proof.
  intros Hnr.
  unfold partition_type_addr, partition_off, bootcode_size, partinfo_size, type_off,
    BLOCKIO_DEFAULT_SECTORSIZE.
  lia.
Qed.

Lemma land_byte b : is_byte b -> Z.land b 0xFF = b.
Proof. unfold is_byte. intros Hb. rewrite land_255. apply Z.mod_small. lia. Qed.

(** Results read off the trace of a call: the error is returned exactly
    when the trace does not hold both a one-sector read and a one-sector
    write, and a successful call has written back the sector it read with
    the type byte replaced. *)
Lemma write_partitiontype_trace_facts fd nr type :
  1 <= nr <= 4 -> is_byte type ->
  let r := blockio_write_partitiontype fd nr type in
  let off := (partition_off (Z.to_nat (nr - 1)) + type_off)%nat in
  (r.1 = Error BLOCKIO_ERROR_IO <-> ~ (read_one r.2 /\ wrote_one r.2))
  /\ (r.1 = Value 0 \/ r.1 = Error BLOCKIO_ERROR_IO)
  /\ (r.1 = Value 0 ->
      exists impl cfg buf buf',
        devctl_impl fd = Some impl /\ devctl_cfg fd = Some cfg /\
        read_sectors impl (blkstart cfg) 1 = (1, buf) /\
        sector_io r.2 = [ReadSectors (blkstart cfg) 1 1;
                         WriteSectors buf' (blkstart cfg) 1 1] /\
        length buf' = length buf /\
        (forall k, k <> off -> buf' !! k = buf !! k) /\
        (length buf = 512%nat -> buf' !! off = Some type)).
Proof.
  intros Hnr Hty. cbv zeta.
  destruct (partition_type_addr_valid nr Hnr) as [Haddr Hin].
  unfold blockio_write_partitiontype.
  destruct (devctl_impl fd) as [impl|].
  2:{ cbn. split; [|split; [by right|done]].
      split; [|done]. intros _ [[lba H] _]. trace_mem H. }
  destruct (devctl_cfg fd) as [cfg|].
  2:{ cbn. split; [|split; [by right|done]].
      split; [|done]. intros _ [[lba H] _]. trace_mem H. }
  destruct (read_sectors impl (blkstart cfg) 1) as [got buf] eqn:Hrd.
  destruct (got =? 1) eqn:Hgot; cbn [negb].
  2:{ cbn. split; [|split; [by right|done]].
      split; [|done]. intros _ [[lba H] _]. trace_mem H.
      apply Z.eqb_neq in Hgot. injection H as _ Hg. by symmetry in Hg. }
  apply Z.eqb_eq in Hgot. subst got.
  assert ((0 <=? partition_type_addr (nr - 1))
          && (partition_type_addr (nr - 1) <? BLOCKIO_DEFAULT_SECTORSIZE) = true) as ->.
  { apply andb_true_iff. rewrite Z.leb_le, Z.ltb_lt. lia. }
  rewrite Haddr, Nat2Z.id, land_byte by done.
  set (off := (partition_off (Z.to_nat (nr - 1)) + type_off)%nat).
  destruct (write_sectors impl (<[off:=type]> buf) (blkstart cfg) 1 =? 1) eqn:Hwr;
    cbn [negb].
  2:{ cbn. split; [|split; [by right|done]].
      split; [|done]. intros _ [_ (data & lba & H)]. trace_mem H.
      apply Z.eqb_neq in Hwr. injection H as _ _ Hw. by symmetry in Hw. }
  apply Z.eqb_eq in Hwr. rewrite Hwr. cbn [fst snd app].
  split; [|split; [by left|]].
  - split; [done|]. intros Hno. exfalso. apply Hno. split.
    + exists (blkstart cfg). do 2 apply list_elem_of_further. apply list_elem_of_here.
    + exists (<[off:=type]> buf), (blkstart cfg).
      do 3 apply list_elem_of_further. apply list_elem_of_here.
  - intros _. exists impl, cfg, buf, (<[off:=type]> buf).
    split; [done|]. split; [done|]. split; [done|]. split; [done|].
    split; [apply length_insert|]. split.
    + intros k Hk. by apply list_lookup_insert_ne.
    + intros Hlen. apply list_lookup_insert_eq.
      unfold off, partition_off, bootcode_size, partinfo_size, type_off. lia.
Qed.

(** Results in terms of what the device answers: with both lookups
    successful, the call is decided by the counts the read and the write
    return. *)
Lemma write_partitiontype_device fd impl cfg got buf nr type :
  1 <= nr <= 4 -> is_byte type ->
  devctl_impl fd = Some impl -> devctl_cfg fd = Some cfg ->
  read_sectors impl (blkstart cfg) 1 = (got, buf) ->
  let off := (partition_off (Z.to_nat (nr - 1)) + type_off)%nat in
  let written := write_sectors impl (<[off := type]> buf) (blkstart cfg) 1 in
  let lookups := [Devctl DEVCTL_BLOCKIO_IMPL; Devctl DEVCTL_BLOCKIO_CFG] in
  (got = 1 -> written = 1 ->
   blockio_write_partitiontype fd nr type
   = (Value 0, lookups ++ [ReadSectors (blkstart cfg) 1 1;
                           WriteSectors (<[off := type]> buf) (blkstart cfg) 1 1]))
  /\ (got = 1 -> written <> 1 ->
      blockio_write_partitiontype fd nr type
      = (Error BLOCKIO_ERROR_IO,
         lookups ++ [ReadSectors (blkstart cfg) 1 1;
                     WriteSectors (<[off := type]> buf) (blkstart cfg) 1 written]))
  /\ (got <> 1 ->
      blockio_write_partitiontype fd nr type
      = (Error BLOCKIO_ERROR_IO, lookups ++ [ReadSectors (blkstart cfg) 1 got])).
Proof.
  intros Hnr Hty Himpl Hcfg Hrd. cbv zeta.
  destruct (partition_type_addr_valid nr Hnr) as [Haddr Hin].
  unfold blockio_write_partitiontype. rewrite Himpl, Hcfg, Hrd.
  assert ((0 <=? partition_type_addr (nr - 1))
          && (partition_type_addr (nr - 1) <? BLOCKIO_DEFAULT_SECTORSIZE) = true) as ->.
  { apply andb_true_iff. rewrite Z.leb_le, Z.ltb_lt. lia. }
  rewrite Haddr, Nat2Z.id, land_byte by done.
  split; [|split].
  - intros -> Hw. rewrite Hw. done.
  - intros -> Hw. apply Z.eqb_neq in Hw. change (negb (1 =? 1)) with false.
    cbv iota. by rewrite Hw.
  - intros Hg. apply Z.eqb_neq in Hg. by rewrite Hg.
Qed.

(** C6: for a partition number in 1..4, a successful
    [blockio_write_partitiontype] has read one sector at the device's base
    and written back, at the same address, a sector equal to the one it
    read in every byte but the type byte of entry [nr - 1], which holds the
    given type; the call returns either 0 or [BLOCKIO_ERROR_IO], and the
    latter exactly when it is not the case that both the read and the write
    transferred exactly one sector.  In terms of the device: once both
    lookups have succeeded, the call returns 0 if and only if the read
    returns 1 and the write of the patched sector returns 1, and
    [BLOCKIO_ERROR_IO] if and only if one of them returns another count;
    the read is always issued, the write exactly when the read returned 1.
    A failed lookup gives [BLOCKIO_ERROR_IO] without any transfer. *)
Theorem write_partitiontype_frame fd nr type :
  1 <= nr <= 4 -> is_byte type ->
  let r := blockio_write_partitiontype fd nr type in
  let off := (partition_off (Z.to_nat (nr - 1)) + type_off)%nat in
  (r.1 = Error BLOCKIO_ERROR_IO <-> ~ (read_one r.2 /\ wrote_one r.2))
  /\ (r.1 = Value 0 \/ r.1 = Error BLOCKIO_ERROR_IO)
  /\ (r.1 = Value 0 ->
      exists impl cfg buf buf',
        devctl_impl fd = Some impl /\ devctl_cfg fd = Some cfg /\
        read_sectors impl (blkstart cfg) 1 = (1, buf) /\
        sector_io r.2 = [ReadSectors (blkstart cfg) 1 1;
                         WriteSectors buf' (blkstart cfg) 1 1] /\
        length buf' = length buf /\
        (forall k, k <> off -> buf' !! k = buf !! k) /\
        (length buf = 512%nat -> buf' !! off = Some type))
  /\ (forall impl cfg got buf,
        devctl_impl fd = Some impl -> devctl_cfg fd = Some cfg ->
        read_sectors impl (blkstart cfg) 1 = (got, buf) ->
        let written := write_sectors impl (<[off := type]> buf) (blkstart cfg) 1 in
        (r.1 = Value 0 <-> got = 1 /\ written = 1)
        /\ (r.1 = Error BLOCKIO_ERROR_IO <-> got <> 1 \/ written <> 1)
        /\ (got = 1 ->
            sector_io r.2 = [ReadSectors (blkstart cfg) 1 1;
                             WriteSectors (<[off := type]> buf) (blkstart cfg) 1 written])
        /\ (got <> 1 -> sector_io r.2 = [ReadSectors (blkstart cfg) 1 got]))
  /\ (devctl_impl fd = None \/ devctl_cfg fd = None ->
      r.1 = Error BLOCKIO_ERROR_IO /\ sector_io r.2 = []).
Proof.
  intros Hnr Hty. cbv zeta.
  destruct (write_partitiontype_trace_facts fd nr type Hnr Hty) as (T1 & T2 & T3).
  split; [exact T1|]. split; [exact T2|]. split; [exact T3|]. split.
  - intros impl cfg got buf Himpl Hcfg Hrd. cbv zeta.
    destruct (write_partitiontype_device fd impl cfg got buf nr type
                Hnr Hty Himpl Hcfg Hrd) as (D1 & D2 & D3).
    set (off := (partition_off (Z.to_nat (nr - 1)) + type_off)%nat) in *.
    set (written := write_sectors impl (<[off := type]> buf) (blkstart cfg) 1) in *.
    destruct (Z.eq_dec got 1) as [Hg|Hg].
    + destruct (Z.eq_dec written 1) as [Hw|Hw].
      * rewrite (D1 Hg Hw). cbn [fst snd app]. subst got. rewrite Hw.
        split; [by split|]. split; [split; [done|lia]|]. split; [done|lia].
      * rewrite (D2 Hg Hw). cbn [fst snd app]. subst got.
        split; [split; [done|lia]|]. split; [split; [by right|done]|].
        split; [done|lia].
    + rewrite (D3 Hg). cbn [fst snd app].
      split; [split; [done|lia]|]. split; [split; [by left|done]|].
      split; [lia|done].
  - unfold blockio_write_partitiontype. intros [Hno|Hno].
    + by rewrite Hno.
    + rewrite Hno. by destruct (devctl_impl fd).
Qed.

(** Setting type 0x83 on entry 2 of a cleared sector of a working disk
    succeeds: sector 0 is read and written back with byte 466 set. *)
Lemma write_partitiontype_frame_witness :
  let r := blockio_write_partitiontype (disk 2048 0 zero_sector) 2 0x83 in
  r.1 = Value 0
  /\ sector_io r.2 = [ReadSectors 0 1 1;
                      WriteSectors (<[466%nat := 0x83]> zero_sector) 0 1 1].
Proof.
  cbv zeta.
  pose proof (write_partitiontype_frame (disk 2048 0 zero_sector) 2 0x83) as H.
  cbv zeta in H.
  assert (1 <= 2 <= 4) as Hnr by lia.
  assert (is_byte 0x83) as Hty by (unfold is_byte; lia).
  destruct (H Hnr Hty) as (_ & _ & _ & Hdev & _).
  destruct (Hdev (ideal_impl zero_sector) (disk_cfg 512 2048 0) 1 zero_sector
              eq_refl eq_refl eq_refl) as (Hok & _ & Htr & _).
  split.
  - apply Hok. split; reflexivity.
  - apply (Htr eq_refl).
Defined.

End PatcherFacts.

Section PatcherBounds.

(** C9: [blockio_write_partitiontype] does not check [nr].  The byte
    denoted by [partition[nr - 1].type] lies in the partition-entry array
    exactly when [nr] is in 1..4; for [nr = 0] it lies in the boot code,
    for [nr >= 5] at or past the signature and past the end of the sector
    buffer.  Whatever [nr] is, once the lookups and the read succeed the
    store is attempted: inside the sector buffer it changes that byte of
    the sector written back, outside it the call has no defined result. *)
Theorem write_partitiontype_unchecked :
  (forall nr, in_partition_array (partition_type_addr (nr - 1)) <-> 1 <= nr <= 4)
  /\ in_bootcode (partition_type_addr (0 - 1))
  /\ (forall nr, 5 <= nr ->
        Z.of_nat signature_off <= partition_type_addr (nr - 1)
        /\ ~ in_sector_buffer (partition_type_addr (nr - 1)))
  /\ (forall fd impl cfg buf nr type,
        devctl_impl fd = Some impl -> devctl_cfg fd = Some cfg ->
        read_sectors impl (blkstart cfg) 1 = (1, buf) ->
        let r := blockio_write_partitiontype fd nr type in
        let addr := partition_type_addr (nr - 1) in
        ReadSectors (blkstart cfg) 1 1 ∈ r.2
        /\ (~ in_sector_buffer addr -> r.1 = Undefined)
        /\ (in_sector_buffer addr ->
            exists written,
              WriteSectors (<[Z.to_nat addr := Z.land type 0xFF]> buf)
                           (blkstart cfg) 1 written ∈ r.2)).
Proof.
  split; [|split; [|split]].
  - intros nr.
    unfold in_partition_array, partition_type_addr, signature_off, bootcode_size,
      partinfo_size, type_off. lia.
  - unfold in_bootcode, partition_type_addr, bootcode_size, partinfo_size, type_off. lia.
  - intros nr Hnr.
    unfold in_sector_buffer, partition_type_addr, signature_off, bootcode_size,
      partinfo_size, type_off, BLOCKIO_DEFAULT_SECTORSIZE. lia.
  - intros fd impl cfg buf nr type Himpl Hcfg Hrd. cbv zeta.
    unfold blockio_write_partitiontype. rewrite Himpl, Hcfg, Hrd.
    change (negb (1 =? 1)) with false. cbv iota.
    set (addr := partition_type_addr (nr - 1)).
    destruct ((0 <=? addr) && (addr <? BLOCKIO_DEFAULT_SECTORSIZE)) eqn:Hin.
    + apply andb_true_iff in Hin. rewrite Z.leb_le, Z.ltb_lt in Hin.
      set (buf' := <[Z.to_nat addr := Z.land type 0xFF]> buf).
      assert (ReadSectors (blkstart cfg) 1 1
                ∈ [Devctl DEVCTL_BLOCKIO_IMPL; Devctl DEVCTL_BLOCKIO_CFG] ++
                  [ReadSectors (blkstart cfg) 1 1;
                   WriteSectors buf' (blkstart cfg) 1
                     (write_sectors impl buf' (blkstart cfg) 1)]) as Hr.
      { do 2 apply list_elem_of_further. apply list_elem_of_here. }
      assert (WriteSectors buf' (blkstart cfg) 1 (write_sectors impl buf' (blkstart cfg) 1)
                ∈ [Devctl DEVCTL_BLOCKIO_IMPL; Devctl DEVCTL_BLOCKIO_CFG] ++
                  [ReadSectors (blkstart cfg) 1 1;
                   WriteSectors buf' (blkstart cfg) 1
                     (write_sectors impl buf' (blkstart cfg) 1)]) as Hw.
      { do 3 apply list_elem_of_further. apply list_elem_of_here. }
      destruct (negb (write_sectors impl buf' (blkstart cfg) 1 =? 1)); cbn [fst snd].
      * split; [done|]. split; [unfold in_sector_buffer; lia|]. eauto.
      * split; [done|]. split; [unfold in_sector_buffer; lia|]. eauto.
    + apply andb_false_iff in Hin. rewrite Z.leb_gt, Z.ltb_ge in Hin. cbn [fst snd].
      split; [|split; [done|]].
      * do 2 apply list_elem_of_further. apply list_elem_of_here.
      * unfold in_sector_buffer. lia.
Qed.

(** With [nr = 0] on a working disk the call succeeds and the sector it
    writes back has byte 434 of the boot code overwritten. *)
Lemma write_partitiontype_unchecked_witness :
  exists written,
    WriteSectors (<[434%nat := 0x83]> zero_sector) 0 1 written
      ∈ (blockio_write_partitiontype (disk 2048 0 zero_sector) 0 0x83).2.
Proof.
  destruct write_partitiontype_unchecked as (_ & _ & _ & H).
  destruct (H (disk 2048 0 zero_sector) (ideal_impl zero_sector) (disk_cfg 512 2048 0)
              zero_sector 0 0x83 eq_refl eq_refl eq_refl) as (_ & _ & Hin).
  apply Hin. vm_compute. split; [discriminate|reflexivity].
Defined.

End PatcherBounds.

(** ** Sector addresses used by the three operations *)

Section SectorAddresses.

Variables (fd : blockio_fd) (cfg : posix_devctl_blockio_cfg_t).
Hypothesis Hcfg : devctl_cfg fd = Some cfg.

Lemma write_partitiontable_lba size e :
  e ∈ sector_io (tr_trace (blockio_write_partitiontable fd size)) ->
  event_lba e = Some 0.
Proof.
  unfold blockio_write_partitiontable. rewrite Hcfg.
  destruct (devctl_impl fd) as [impl|]; [|intros H; by trace_mem H].
  destruct (partition_sizing cfg size) as [res left|err res|];
    cbn; intros H; trace_mem H.
  by subst e.
Qed.

Lemma write_partitiontype_lba nr type e :
  e ∈ sector_io (blockio_write_partitiontype fd nr type).2 ->
  event_lba e = Some (blkstart cfg).
Proof.
  unfold blockio_write_partitiontype. rewrite Hcfg.
  destruct (devctl_impl fd) as [impl|]; [|intros H; by trace_mem H].
  destruct (read_sectors impl (blkstart cfg) 1) as [got buf].
  destruct (negb (got =? 1)); [cbn; intros H; trace_mem H; by subst e|].
  destruct (_ && _); [|cbn; intros H; trace_mem H; by subst e].
  destruct (negb (_ =? 1)); cbn; intros H; trace_mem H; by subst e.
Qed.

Lemma select_partition_lba nr p q e :
  e ∈ sector_io (sr_trace (blockio_select_partition fd nr p q)) ->
  event_lba e = Some (blkstart cfg).
Proof.
  unfold blockio_select_partition. rewrite Hcfg.
  destruct p, q; try (intros H; by trace_mem H).
  destruct (_ || _); [intros H; by trace_mem H|].
  destruct (devctl_impl fd) as [impl|]; [|intros H; by trace_mem H].
  destruct (read_sectors impl (blkstart cfg) 1) as [got buf].
  destruct (negb (got =? 1)); [cbn; intros H; trace_mem H; by subst e|].
  destruct (negb (_ =? BLOCKIO_MBR_SIGNATURE)); [cbn; intros H; trace_mem H; by subst e|].
  destruct (sanity_check impl) as [check|].
  - destruct (negb (check _ _ _)); cbn; intros H; trace_mem H; by subst e.
  - destruct (_ || _); cbn; intros H; trace_mem H; by subst e.
Qed.

(** The transfers each function issues once its lookups have succeeded,
    with the arguments it passes to the device. *)
Lemma write_partitiontable_transfer impl size res slack :
  devctl_impl fd = Some impl ->
  partition_sizing cfg size = Sized res slack ->
  sector_io (tr_trace (blockio_write_partitiontable fd size))
  = [WriteSectors (build_table cfg res) 0 1
       (write_sectors impl (build_table cfg res) 0 1)].
Proof.
  intros Himpl Hsz. unfold blockio_write_partitiontable.
  by rewrite Himpl, Hcfg, Hsz.
Qed.

Lemma write_partitiontype_first_transfer impl nr type :
  devctl_impl fd = Some impl ->
  head (sector_io (blockio_write_partitiontype fd nr type).2)
  = Some (ReadSectors (blkstart cfg) 1 (read_sectors impl (blkstart cfg) 1).1).
Proof.
  intros Himpl. unfold blockio_write_partitiontype. rewrite Himpl, Hcfg.
  destruct (read_sectors impl (blkstart cfg) 1) as [got buf].
  destruct (negb (got =? 1)); [done|].
  destruct (_ && _); [|done].
  by destruct (negb (_ =? 1)).
Qed.

Lemma write_partitiontype_transfers impl nr type buf :
  devctl_impl fd = Some impl ->
  1 <= nr <= 4 ->
  read_sectors impl (blkstart cfg) 1 = (1, buf) ->
  let off := (partition_off (Z.to_nat (nr - 1)) + type_off)%nat in
  let buf' := <[off := Z.land type 0xFF]> buf in
  sector_io (blockio_write_partitiontype fd nr type).2
  = [ReadSectors (blkstart cfg) 1 1;
     WriteSectors buf' (blkstart cfg) 1 (write_sectors impl buf' (blkstart cfg) 1)].
Proof.
  intros Himpl Hnr Hrd. cbv zeta.
  destruct (partition_type_addr_valid nr Hnr) as [Haddr Hin].
  unfold blockio_write_partitiontype. rewrite Himpl, Hcfg, Hrd.
  assert ((0 <=? partition_type_addr (nr - 1))
          && (partition_type_addr (nr - 1) <? BLOCKIO_DEFAULT_SECTORSIZE) = true) as ->.
  { apply andb_true_iff. rewrite Z.leb_le, Z.ltb_lt. lia. }
  rewrite Haddr, Nat2Z.id. change (negb (1 =? 1)) with false. cbv iota.
  by destruct (negb (_ =? 1)).
Qed.

Lemma select_partition_transfer impl nr p q :
  devctl_impl fd = Some impl ->
  1 <= nr <= 4 ->
  sector_io (sr_trace (blockio_select_partition fd nr (Some p) (Some q)))
  = [ReadSectors (blkstart cfg) 1 (read_sectors impl (blkstart cfg) 1).1].
Proof.
  intros Himpl Hnr. unfold blockio_select_partition. rewrite Himpl, Hcfg.
  assert ((nr <? 1) || (nr >? 4) = false) as ->.
  { apply orb_false_iff. rewrite Z.gtb_ltb, !Z.ltb_ge. lia. }
  destruct (read_sectors impl (blkstart cfg) 1) as [got buf].
  destruct (negb (got =? 1)); [done|].
  destruct (negb (_ =? BLOCKIO_MBR_SIGNATURE)); [done|].
  destruct (sanity_check impl) as [check|].
  - by destruct (negb (check _ _ _)).
  - by destruct (_ || _).
Qed.

End SectorAddresses.

Section MbrSector.

Lemma nonempty_elem (t : list event) : t <> [] -> exists e, e ∈ t.
Proof. destruct t as [|e t]; [done|]. intros _. exists e. apply list_elem_of_here. Qed.

(** Addresses of the transfers found in the traces. *)
Lemma mbr_sector_trace_facts fd cfg :
  devctl_cfg fd = Some cfg ->
  (forall size e,
     e ∈ sector_io (tr_trace (blockio_write_partitiontable fd size)) ->
     event_lba e = Some 0)
  /\ (forall nr type e,
        e ∈ sector_io (blockio_write_partitiontype fd nr type).2 ->
        event_lba e = Some (blkstart cfg))
  /\ (forall nr p q e,
        e ∈ sector_io (sr_trace (blockio_select_partition fd nr p q)) ->
        event_lba e = Some (blkstart cfg))
  /\ (forall size nr type nr' p q,
        sector_io (tr_trace (blockio_write_partitiontable fd size)) <> [] ->
        sector_io (blockio_write_partitiontype fd nr type).2 <> [] ->
        sector_io (sr_trace (blockio_select_partition fd nr' p q)) <> [] ->
        (same_sector (tr_trace (blockio_write_partitiontable fd size))
                     (blockio_write_partitiontype fd nr type).2
                     (sr_trace (blockio_select_partition fd nr' p q))
         <-> blkstart cfg = 0))
  /\ (forall size mb,
        tr_ret (blockio_write_partitiontable fd size) = Value mb ->
        exists buf,
          sector_io (tr_trace (blockio_write_partitiontable fd size))
            = [WriteSectors buf 0 1 1] /\
          packed_from (blkstart cfg + RESERVED_SECTORS)
                      (tr_size (blockio_write_partitiontable fd size)) buf).
Proof.
  intros Hcfg.
  split; [|split; [|split; [|split]]].
  - intros size e. apply (write_partitiontable_lba fd cfg Hcfg).
  - intros nr type e. apply (write_partitiontype_lba fd cfg Hcfg).
  - intros nr p q e. apply (select_partition_lba fd cfg Hcfg).
  - intros size nr type nr' p q HW HP HS.
    destruct (nonempty_elem _ HW) as [e1 H1].
    destruct (nonempty_elem _ HP) as [e2 H2].
    split.
    + intros [lba Hsame].
      pose proof (Hsame e1 ltac:(apply elem_of_app; by left)) as L1.
      pose proof (Hsame e2 ltac:(apply elem_of_app; right;
                                 apply elem_of_app; by left)) as L2.
      rewrite (write_partitiontable_lba fd cfg Hcfg size e1 H1) in L1.
      rewrite (write_partitiontype_lba fd cfg Hcfg nr type e2 H2) in L2.
      congruence.
    + intros Hz. exists 0. intros e He.
      apply elem_of_app in He as [He|He];
        [by apply (write_partitiontable_lba fd cfg Hcfg) in He|].
      rewrite <- Hz.
      apply elem_of_app in He as [He|He].
      * by apply (write_partitiontype_lba fd cfg Hcfg) in He.
      * by apply (select_partition_lba fd cfg Hcfg) in He.
  - intros size mb Hret.
    destruct (write_partitiontable_value fd size mb Hret)
      as (impl & cfg' & _ & Hcfg' & _ & Ht).
    assert (cfg' = cfg) as -> by congruence.
    eexists. split; [by rewrite Ht|]. apply build_table_packed.
Qed.

(** C10: [blockio_write_partitiontable] transfers its sector at absolute
    address 0, [blockio_write_partitiontype] and [blockio_select_partition]
    transfer theirs at [cfg.blkstart].  Every transfer found in a trace has
    these addresses, and the transfers are issued: with the capability table
    available, a writer whose sizing succeeds passes the built table and
    address 0 to [write_sectors]; the patcher first reads one sector at
    [cfg.blkstart] and, for a number in 1..4 after a read of one sector,
    writes the patched sector at [cfg.blkstart]; the selector, for a number
    in 1..4 and non-null outputs, reads one sector at [cfg.blkstart].  So
    for such calls the three address one and the same sector exactly when
    [blkstart] is 0.  The entries the writer stores are nevertheless packed
    from sector [blkstart + RESERVED_SECTORS]. *)
Theorem mbr_sector_addresses fd cfg :
  devctl_cfg fd = Some cfg ->
  (forall size e,
     e ∈ sector_io (tr_trace (blockio_write_partitiontable fd size)) ->
     event_lba e = Some 0)
  /\ (forall nr type e,
        e ∈ sector_io (blockio_write_partitiontype fd nr type).2 ->
        event_lba e = Some (blkstart cfg))
  /\ (forall nr p q e,
        e ∈ sector_io (sr_trace (blockio_select_partition fd nr p q)) ->
        event_lba e = Some (blkstart cfg))
  /\ (forall size nr type nr' p q,
        sector_io (tr_trace (blockio_write_partitiontable fd size)) <> [] ->
        sector_io (blockio_write_partitiontype fd nr type).2 <> [] ->
        sector_io (sr_trace (blockio_select_partition fd nr' p q)) <> [] ->
        (same_sector (tr_trace (blockio_write_partitiontable fd size))
                     (blockio_write_partitiontype fd nr type).2
                     (sr_trace (blockio_select_partition fd nr' p q))
         <-> blkstart cfg = 0))
  /\ (forall size mb,
        tr_ret (blockio_write_partitiontable fd size) = Value mb ->
        exists buf,
          sector_io (tr_trace (blockio_write_partitiontable fd size))
            = [WriteSectors buf 0 1 1] /\
          packed_from (blkstart cfg + RESERVED_SECTORS)
                      (tr_size (blockio_write_partitiontable fd size)) buf)
  /\ (forall impl, devctl_impl fd = Some impl ->
      (forall size res slack,
         partition_sizing cfg size = Sized res slack ->
         sector_io (tr_trace (blockio_write_partitiontable fd size))
         = [WriteSectors (build_table cfg res) 0 1
              (write_sectors impl (build_table cfg res) 0 1)]
         /\ packed_from (blkstart cfg + RESERVED_SECTORS) res (build_table cfg res))
      /\ (forall nr type,
           head (sector_io (blockio_write_partitiontype fd nr type).2)
           = Some (ReadSectors (blkstart cfg) 1 (read_sectors impl (blkstart cfg) 1).1))
      /\ (forall nr type buf,
           1 <= nr <= 4 ->
           read_sectors impl (blkstart cfg) 1 = (1, buf) ->
           let off := (partition_off (Z.to_nat (nr - 1)) + type_off)%nat in
           let buf' := <[off := Z.land type 0xFF]> buf in
           sector_io (blockio_write_partitiontype fd nr type).2
           = [ReadSectors (blkstart cfg) 1 1;
              WriteSectors buf' (blkstart cfg) 1
                (write_sectors impl buf' (blkstart cfg) 1)])
      /\ (forall nr p q,
           1 <= nr <= 4 ->
           sector_io (sr_trace (blockio_select_partition fd nr (Some p) (Some q)))
           = [ReadSectors (blkstart cfg) 1 (read_sectors impl (blkstart cfg) 1).1])
      /\ (forall size res slack nr type nr' p q,
           partition_sizing cfg size = Sized res slack ->
           1 <= nr' <= 4 ->
           (same_sector (tr_trace (blockio_write_partitiontable fd size))
                        (blockio_write_partitiontype fd nr type).2
                        (sr_trace (blockio_select_partition fd nr' (Some p) (Some q)))
            <-> blkstart cfg = 0))).
Proof.
  intros Hcfg.
  destruct (mbr_sector_trace_facts fd cfg Hcfg) as (T1 & T2 & T3 & T4 & T5).
  split; [exact T1|]. split; [exact T2|]. split; [exact T3|].
  split; [exact T4|]. split; [exact T5|].
  intros impl Himpl.
  split; [|split; [|split; [|split]]].
  - intros size res slack Hsz. split.
    + by apply (write_partitiontable_transfer fd cfg Hcfg impl size res slack).
    + apply build_table_packed.
  - intros nr type. by apply (write_partitiontype_first_transfer fd cfg Hcfg).
  - intros nr type buf Hnr Hrd.
    by apply (write_partitiontype_transfers fd cfg Hcfg impl nr type buf).
  - intros nr p q Hnr. by apply (select_partition_transfer fd cfg Hcfg).
  - intros size res slack nr type nr' p q Hsz Hnr'. apply T4.
    + by rewrite (write_partitiontable_transfer fd cfg Hcfg impl size res slack).
    + pose proof (write_partitiontype_first_transfer fd cfg Hcfg impl nr type Himpl) as Hhd.
      intros Hnil. by rewrite Hnil in Hhd.
    + by rewrite (select_partition_transfer fd cfg Hcfg impl nr' p q).
Qed.

(** On a working device whose address space starts at sector 63 the writer
    transfers the table at sector 0 while the patcher and the selector
    transfer at sector 63: the three do not address one sector.  The first
    entry of the table written at sector 0 starts at sector 64. *)
Lemma mbr_sector_addresses_witness :
  let fd := disk 4097 63 zero_sector in
  let table := build_table (disk_cfg 512 4097 63) [2048; 0; 0; 0] in
  sector_io (tr_trace (blockio_write_partitiontable fd [1; 0; 0; 0]))
  = [WriteSectors table 0 1 1]
  /\ sector_io (blockio_write_partitiontype fd 1 0x83).2
     = [ReadSectors 63 1 1; WriteSectors (<[450%nat := 0x83]> zero_sector) 63 1 1]
  /\ sector_io (sr_trace (blockio_select_partition fd 1 (Some 0) (Some 0)))
     = [ReadSectors 63 1 1]
  /\ ~ same_sector (tr_trace (blockio_write_partitiontable fd [1; 0; 0; 0]))
                   (blockio_write_partitiontype fd 1 0x83).2
                   (sr_trace (blockio_select_partition fd 1 (Some 0) (Some 0)))
  /\ mbr_startsector table 0 = 64.
Proof.
  cbv zeta.
  pose proof (mbr_sector_addresses (disk 4097 63 zero_sector) (disk_cfg 512 4097 63)
                eq_refl) as (_ & _ & _ & _ & _ & Hdev).
  destruct (Hdev (ideal_impl zero_sector) eq_refl) as (HW & _ & HP & HS & Hsame).
  assert (partition_sizing (disk_cfg 512 4097 63) [1; 0; 0; 0]
          = Sized [2048; 0; 0; 0] 2048) as Hsz by (vm_compute; reflexivity).
  assert (1 <= 1 <= 4) as Hnr by lia.
  destruct (HW [1; 0; 0; 0] [2048; 0; 0; 0] 2048 Hsz) as [Hwr Hpacked].
  split; [exact Hwr|].
  split; [exact (HP 1 0x83 zero_sector Hnr eq_refl)|].
  split; [exact (HS 1 0 0 Hnr)|].
  split.
  - intros Hs.
    apply (Hsame [1; 0; 0; 0] [2048; 0; 0; 0] 2048 1 0x83 1 0 0 Hsz Hnr) in Hs.
    discriminate Hs.
  - destruct Hpacked as (_ & _ & Hfirst & _).
    rewrite (Hfirst 0%nat); [reflexivity|lia|discriminate|intros j Hj; lia].
Defined.

End MbrSector.

(** ** The sizing passes *)

Section SizingFacts.

Lemma sint32_sub_l x y : sint32 (sint32 x - y) = sint32 (x - y).
Proof.
  unfold sint32. f_equal.
  replace ((x + 2 ^ 31) mod 2 ^ 32 - 2 ^ 31 - y + 2 ^ 31)
    with ((x + 2 ^ 31) mod 2 ^ 32 + (- y)) by lia.
  rewrite Zplus_mod_idemp_l. f_equal. lia.
Qed.

Lemma sectors_per_mb : 1024 * 1024 / BLOCKIO_DEFAULT_SECTORSIZE = 2048.
Proof. reflexivity. Qed.

(** One step of the absolute pass on a slot that holds [s]. *)
Lemma reserve_absolute_step size sl rt i s :
  (i < length size)%nat -> size !!! i = s -> s < 2 ^ 20 ->
  is_sint32 sl -> is_sint32 rt ->
  reserve_absolute (size, sl, rt) i =
  (<[i := scaled s]> size, sint32 (sl - 2048 * Z.max s 0), sint32 (rt - Z.min s 0)).
Proof.
  intros Hi Hs Hr Hsl Hrt. unfold reserve_absolute, scaled.
  rewrite Hs, sectors_per_mb.
  destruct (Z.ltb_spec 0 s) as [Hpos|Hneg].
  - rewrite list_lookup_total_insert_eq by done.
    rewrite (sint32_small (s * 2048)) by (unfold is_sint32; lia).
    f_equal; [f_equal|].
    + f_equal. lia.
    + replace (rt - Z.min s 0) with rt by lia. symmetry. by apply sint32_small.
  - rewrite list_insert_id by (rewrite <- Hs; by apply list_lookup_lookup_total_lt).
    f_equal; [f_equal|].
    + replace (sl - 2048 * Z.max s 0) with sl by lia. symmetry. by apply sint32_small.
    + f_equal. lia.
Qed.

(** The absolute pass on four slots below 2^20 MB each. *)
Lemma reserve_absolute_all a b c d sl :
  is_sint32 sl -> a < 2 ^ 20 -> b < 2 ^ 20 -> c < 2 ^ 20 -> d < 2 ^ 20 ->
  foldl reserve_absolute ([a; b; c; d], sl, 0) (seq 0 4) =
  ([scaled a; scaled b; scaled c; scaled d],
   sint32 (sl - 2048 * absolute_total [a; b; c; d]),
   sint32 (relative_weight [a; b; c; d])).
Proof.
  intros Hsl Ha Hb Hc Hd. cbn [seq foldl].
  rewrite (reserve_absolute_step _ _ _ 0 a) by (done || (cbn; lia) || (unfold is_sint32; lia)).
  cbn [insert list_insert]. rewrite ?sint32_sub_l.
  rewrite (reserve_absolute_step _ _ _ 1 b) by (done || (cbn; lia) || apply sint32_range).
  cbn [insert list_insert]. rewrite ?sint32_sub_l.
  rewrite (reserve_absolute_step _ _ _ 2 c) by (done || (cbn; lia) || apply sint32_range).
  cbn [insert list_insert]. rewrite ?sint32_sub_l.
  rewrite (reserve_absolute_step _ _ _ 3 d) by (done || (cbn; lia) || apply sint32_range).
  cbn [insert list_insert]. rewrite ?sint32_sub_l.
  unfold absolute_total, relative_weight. cbn [foldr].
  f_equal; [f_equal|]; f_equal; lia.
Qed.

(** The share of a relative slot, when nothing wraps: the budget times the
    weight over the total weight, rounded down. *)
Lemma relative_share_exact B R s :
  0 <= B < 2 ^ 31 -> 0 < R < 2 ^ 31 -> - 2 ^ 31 <= s < 0 -> - s <= R ->
  relative_share (uint64 B) R s = (B * - s) / R.
Proof.
  intros HB HR Hs Hle. unfold relative_share.
  rewrite uint64_small, (sint64_small B) by lia.
  rewrite sint64_small by nia.
  replace (B * s) with (- (B * - s)) by lia.
  rewrite Z.quot_opp_l by lia.
  rewrite Z.quot_div_nonneg by nia.
  assert (0 <= B * - s / R <= B) as Hq.
  { split; [apply Z.div_pos; nia|].
    apply Z.div_le_upper_bound; nia. }
  rewrite sint32_land_mask by (unfold is_sint32; lia).
  rewrite Z.opp_involutive.
  apply sint32_small. unfold is_sint32. lia.
Qed.

Lemma divide_relative_step B R size sl i s :
  (i < length size)%nat -> size !!! i = s -> is_sint32 sl ->
  0 <= B < 2 ^ 31 -> 0 <= R < 2 ^ 31 ->
  (s < 0 -> - 2 ^ 31 <= s /\ 0 < R /\ - s <= R) ->
  divide_relative (uint64 B) R (Some (size, sl)) i =
  Some (<[i := resolved B R s]> size, sint32 (sl - share B R s)).
Proof.
  intros Hi Hs Hsl HB HR Hneg. unfold divide_relative, resolved, share.
  rewrite Hs. destruct (Z.ltb_spec s 0) as [Hlt|Hge].
  - destruct (Hneg Hlt) as (Hs31 & HRpos & Hle).
    assert ((R =? 0) = false) as -> by (apply Z.eqb_neq; lia).
    rewrite list_lookup_total_insert_eq by done.
    by rewrite relative_share_exact by lia.
  - rewrite list_insert_id by (rewrite <- Hs; by apply list_lookup_lookup_total_lt).
    rewrite Z.sub_0_r. by rewrite sint32_small.
Qed.

Lemma divide_relative_all B R a b c d :
  0 <= B < 2 ^ 31 -> 0 <= R < 2 ^ 31 ->
  (forall s, s ∈ [a; b; c; d] -> s < 0 -> - 2 ^ 31 <= s /\ 0 < R /\ - s <= R) ->
  foldl (divide_relative (uint64 B) R) (Some ([a; b; c; d], B)) (seq 0 4) =
  Some ([resolved B R a; resolved B R b; resolved B R c; resolved B R d],
        sint32 (B - (share B R a + share B R b + share B R c + share B R d))).
Proof.
  intros HB HR Hneg. cbn [seq foldl].
  assert (a ∈ [a; b; c; d]) as Ia by (apply list_elem_of_here).
  assert (b ∈ [a; b; c; d]) as Ib by (do 1 apply list_elem_of_further; apply list_elem_of_here).
  assert (c ∈ [a; b; c; d]) as Ic by (do 2 apply list_elem_of_further; apply list_elem_of_here).
  assert (d ∈ [a; b; c; d]) as Id by (do 3 apply list_elem_of_further; apply list_elem_of_here).
  rewrite (divide_relative_step B R _ _ 0 a)
    by (done || (cbn; lia) || (unfold is_sint32; lia) || by apply Hneg).
  cbn [insert list_insert]. rewrite ?sint32_sub_l.
  rewrite (divide_relative_step B R _ _ 1 b)
    by (done || (cbn; lia) || apply sint32_range || by apply Hneg).
  cbn [insert list_insert]. rewrite ?sint32_sub_l.
  rewrite (divide_relative_step B R _ _ 2 c)
    by (done || (cbn; lia) || apply sint32_range || by apply Hneg).
  cbn [insert list_insert]. rewrite ?sint32_sub_l.
  rewrite (divide_relative_step B R _ _ 3 d)
    by (done || (cbn; lia) || apply sint32_range || by apply Hneg).
  cbn [insert list_insert]. rewrite ?sint32_sub_l.
  do 3 f_equal. lia.
Qed.

End SizingFacts.

Section Conservation.

(** The budget left by the absolute pass is the true difference whenever
    the pass accepts it. *)
Lemma budget_exact bt T :
  is_uint32 bt -> 0 <= T < 2 ^ 31 ->
  0 <= sint32 (sint32 (uint32 (bt - 1)) - T) ->
  sint32 (sint32 (uint32 (bt - 1)) - T) = bt - 1 - T.
Proof.
  rewrite sint32_sub_l. unfold is_uint32, sint32, uint32.
  intros Hbt HT Hacc. Z.div_mod_to_equations. lia.
Qed.

(** A budget the absolute slots exceed is negative after the pass. *)
Lemma budget_exceeded bt T :
  is_uint32 bt -> 0 <= T < 2 ^ 31 -> bt - 1 < T ->
  sint32 (sint32 (uint32 (bt - 1)) - T) < 0.
Proof.
  rewrite sint32_sub_l. unfold is_uint32, sint32, uint32.
  intros Hbt HT Hex. Z.div_mod_to_equations. lia.
Qed.

Lemma share_weight B R s :
  0 < R -> share B R (scaled s) = (B * Z.max (- s) 0) / R.
Proof.
  intros HR. unfold share, scaled.
  destruct (Z.ltb_spec 0 s) as [Hpos|Hle].
  - assert ((s * 2048 <? 0) = false) as -> by (apply Z.ltb_ge; lia).
    replace (Z.max (- s) 0) with 0 by lia. by rewrite Z.mul_0_r.
  - destruct (Z.ltb_spec s 0) as [Hneg|Hz].
    + f_equal. f_equal. lia.
    + replace (Z.max (- s) 0) with 0 by lia. by rewrite Z.mul_0_r.
Qed.

Lemma resolved_scaled B R s :
  resolved B R (scaled s) = 2048 * Z.max s 0 + share B R (scaled s).
Proof.
  unfold resolved, share, scaled.
  destruct (Z.ltb_spec 0 s) as [Hpos|Hle].
  - assert ((s * 2048 <? 0) = false) as -> by (apply Z.ltb_ge; lia). lia.
  - destruct (Z.ltb_spec s 0); lia.
Qed.

(** The shares of the four slots never exceed the budget. *)
Lemma shares_bound B R a b c d :
  0 <= B -> R = relative_weight [a; b; c; d] ->
  0 <= share B R (scaled a) + share B R (scaled b)
       + share B R (scaled c) + share B R (scaled d) <= B.
Proof.
  intros HB HR. unfold relative_weight in HR. cbn [foldr] in HR.
  destruct (Z_le_gt_dec R 0) as [Hz|Hpos].
  - assert (forall s, 0 <= s -> share B R (scaled s) = 0) as Hno.
    { intros s Hs. unfold share, scaled.
      destruct (Z.ltb_spec 0 s); [|by assert ((s <? 0) = false) as -> by (apply Z.ltb_ge; lia)].
      by assert ((s * 2048 <? 0) = false) as -> by (apply Z.ltb_ge; lia). }
    rewrite !Hno by lia. lia.
  - rewrite !share_weight by lia.
    set (wa := Z.max (- a) 0) in *. set (wb := Z.max (- b) 0) in *.
    set (wc := Z.max (- c) 0) in *. set (wd := Z.max (- d) 0) in *.
    assert (0 <= wa /\ 0 <= wb /\ 0 <= wc /\ 0 <= wd) as (Ha & Hb & Hc & Hd)
      by (unfold wa, wb, wc, wd; lia).
    pose proof (Z.mul_div_le (B * wa) R ltac:(lia)).
    pose proof (Z.mul_div_le (B * wb) R ltac:(lia)).
    pose proof (Z.mul_div_le (B * wc) R ltac:(lia)).
    pose proof (Z.mul_div_le (B * wd) R ltac:(lia)).
    pose proof (Z.div_pos (B * wa) R ltac:(nia) ltac:(lia)).
    pose proof (Z.div_pos (B * wb) R ltac:(nia) ltac:(lia)).
    pose proof (Z.div_pos (B * wc) R ltac:(nia) ltac:(lia)).
    pose proof (Z.div_pos (B * wd) R ltac:(nia) ltac:(lia)).
    split; [lia|].
    assert (R * (B * wa / R + B * wb / R + B * wc / R + B * wd / R) <= R * B) by nia.
    nia.
Qed.

Lemma absolute_total_bound a b c d :
  absolute_total [a; b; c; d] < 2 ^ 20 ->
  0 <= absolute_total [a; b; c; d]
  /\ a < 2 ^ 20 /\ b < 2 ^ 20 /\ c < 2 ^ 20 /\ d < 2 ^ 20.
Proof. unfold absolute_total. cbn [foldr]. lia. Qed.

(** What the sizing part returns on a specification in range: the outcome
    is decided by the true budget [blktotal - 1 - 2048 * absolute_total]. *)
Lemma partition_sizing_in_range cfg a b c d :
  blksize cfg = BLOCKIO_DEFAULT_SECTORSIZE -> is_uint32 (blktotal cfg) ->
  absolute_total [a; b; c; d] < 2 ^ 20 ->
  relative_weight [a; b; c; d] < 2 ^ 31 ->
  let B := sint32 (sint32 (uint32 (blktotal cfg - 1))
                   - 2048 * absolute_total [a; b; c; d]) in
  let R := relative_weight [a; b; c; d] in
  partition_sizing cfg [a; b; c; d] =
  if (B <? 0) || ((B =? 0) && negb (R =? 0)) then
    SizingError BLOCKIO_ERROR_FDISK_DISKFULL [scaled a; scaled b; scaled c; scaled d]
  else
    Sized [resolved B R (scaled a); resolved B R (scaled b);
           resolved B R (scaled c); resolved B R (scaled d)]
          (B - (share B R (scaled a) + share B R (scaled b)
                + share B R (scaled c) + share B R (scaled d))).
Proof.
  intros Hbs Hbt Habs Hrel. cbv zeta.
  destruct (absolute_total_bound a b c d Habs) as (Hnn & Ha & Hb & Hc & Hd).
  assert (0 <= relative_weight [a; b; c; d]) as Hrnn
    by (unfold relative_weight; cbn [foldr]; lia).
  unfold partition_sizing. rewrite Hbs, Z.eqb_refl. cbn [negb].
  unfold RESERVED_SECTORS.
  rewrite reserve_absolute_all by (done || apply sint32_range).
  rewrite (sint32_small (relative_weight _)) by (unfold is_sint32; lia).
  set (B := sint32 (sint32 (uint32 (blktotal cfg - 1))
                    - 2048 * absolute_total [a; b; c; d])).
  set (R := relative_weight [a; b; c; d]) in *.
  destruct ((B <? 0) || ((B =? 0) && negb (R =? 0))) eqn:Hacc; [done|].
  apply orb_false_iff in Hacc as [HB _]. apply Z.ltb_ge in HB.
  assert (B < 2 ^ 31) as HB' by (pose proof (sint32_range
    (sint32 (uint32 (blktotal cfg - 1)) - 2048 * absolute_total [a; b; c; d]));
    unfold is_sint32 in *; fold B in H; lia).
  rewrite divide_relative_all; [|lia|lia|].
  - f_equal. apply sint32_small.
    pose proof (shares_bound B R a b c d HB eq_refl). unfold is_sint32. lia.
  - intros s Hs Hneg.
    assert (exists x, x ∈ [a; b; c; d] /\ s = scaled x) as (x & Hx & ->).
    { trace_mem Hs.
      - exists a. split; [apply list_elem_of_here|done].
      - exists b. split; [do 1 apply list_elem_of_further; apply list_elem_of_here|done].
      - exists c. split; [do 2 apply list_elem_of_further; apply list_elem_of_here|done].
      - exists d. split; [do 3 apply list_elem_of_further; apply list_elem_of_here|done]. }
    assert (scaled x = x /\ x < 0) as [-> Hx0].
    { unfold scaled in *. destruct (Z.ltb_spec 0 x); lia. }
    assert (- x <= R).
    { unfold R, relative_weight. cbn [foldr]. trace_mem Hx; subst; lia. }
    lia.
Qed.

End Conservation.

Section ConservationTheorems.

(** C1 (amended): for every four-slot size specification whose absolute
    slots ask for less than 2^20 MB in total and whose other slots have
    weights that sum to less than 2^31, and every device config with a
    32-bit [blktotal], if the sizing part of
    [blockio_write_partitiontable] accepts the specification then the
    reserved sector, the four resolved sector counts and the leftover
    sectors add up to [blktotal] exactly. *)
Theorem sizing_conservation cfg size res left :
  length size = 4%nat -> is_uint32 (blktotal cfg) ->
  absolute_total size < 2 ^ 20 -> relative_weight size < 2 ^ 31 ->
  partition_sizing cfg size = Sized res left ->
  RESERVED_SECTORS + total_sectors res + left = blktotal cfg.
Proof.
  intros Hlen Hbt Habs Hrel Hsized.
  destruct size as [|a [|b [|c [|d [|]]]]]; try done.
  destruct (Z.eqb_spec (blksize cfg) BLOCKIO_DEFAULT_SECTORSIZE) as [Hbs|Hbs].
  2:{ unfold partition_sizing in Hsized. apply Z.eqb_neq in Hbs.
      by rewrite Hbs in Hsized. }
  rewrite partition_sizing_in_range in Hsized by done.
  destruct (absolute_total_bound a b c d Habs) as (Hnn & _).
  set (T := 2048 * absolute_total [a; b; c; d]) in *.
  set (B := sint32 (sint32 (uint32 (blktotal cfg - 1)) - T)) in *.
  set (R := relative_weight [a; b; c; d]) in *.
  destruct ((B <? 0) || ((B =? 0) && negb (R =? 0))) eqn:Hacc; [done|].
  apply orb_false_iff in Hacc as [HB _]. apply Z.ltb_ge in HB.
  injection Hsized as <- <-.
  assert (B = blktotal cfg - 1 - T) as HBeq
    by (apply budget_exact; [done|unfold T; lia|done]).
  unfold total_sectors, RESERVED_SECTORS. cbn [foldr].
  rewrite !resolved_scaled.
  assert (T = 2048 * Z.max a 0 + 2048 * Z.max b 0 + 2048 * Z.max c 0 + 2048 * Z.max d 0)
    as HT by (unfold T, absolute_total; cbn [foldr]; lia).
  lia.
Qed.

(** Conservation on scenario A of the specification. *)
Lemma sizing_conservation_witness :
  RESERVED_SECTORS + total_sectors [20480; 205619; 822476; 0] + 0 = 1048576.
Proof.
  apply (sizing_conservation (disk_cfg 512 1048576 0) [10; -1; -4; 0]
           [20480; 205619; 822476; 0] 0).
  - reflexivity.
  - unfold is_uint32. cbn. lia.
  - vm_compute. reflexivity.
  - vm_compute. reflexivity.
  - vm_compute. reflexivity.
Defined.

(** C1 as stated fails when 32-bit values wrap.  On a device of 2^32 - 1
    sectors, an absolute slot of 2^20 MB followed by one relative slot is
    accepted, the absolute slot resolves to 0 sectors and the relative one
    to 2^31 - 2.  On a device of one sector, four absolute slots of
    1048575 MB each are accepted, with 2147481600 sectors per slot and
    8192 sectors left over.  On a device of 2^31 sectors, two relative
    slots of weight 2^30 make the relative total wrap to -2^31 and resolve
    to negative counts. *)
Lemma sizing_conservation_counterexample :
  (partition_sizing (disk_cfg 512 4294967295 0) [1048576; -1; 0; 0]
     = Sized [0; 2147483646; 0; 0] 0
   /\ RESERVED_SECTORS + total_sectors [0; 2147483646; 0; 0] + 0
      <> blktotal (disk_cfg 512 4294967295 0))
  /\ (partition_sizing (disk_cfg 512 1 0) [1048575; 1048575; 1048575; 1048575]
        = Sized [2147481600; 2147481600; 2147481600; 2147481600] 8192
      /\ RESERVED_SECTORS
         + total_sectors [2147481600; 2147481600; 2147481600; 2147481600] + 8192
         <> blktotal (disk_cfg 512 1 0))
  /\ (partition_sizing (disk_cfg 512 2147483648 0) [-1073741824; -1073741824; 0; 0]
        = Sized [-1073741823; -1073741823; 0; 0] (-3)
      /\ RESERVED_SECTORS + total_sectors [-1073741823; -1073741823; 0; 0] + -3
         <> blktotal (disk_cfg 512 2147483648 0)).
Proof.
  split; [|split]; (split; [by vm_compute|vm_compute; discriminate]).
Qed.

End ConservationTheorems.

(** ** The passes on arbitrary 32-bit slots *)

Section GeneralPasses.

Lemma uint32_sint32 x : uint32 (sint32 x) = uint32 x.
Proof.
  unfold uint32, sint32. rewrite Zminus_mod_idemp_l. f_equal. lia.
Qed.

Lemma uint32_opp_congr a b : uint32 a = uint32 b -> uint32 (- a) = uint32 (- b).
Proof.
  unfold uint32. intros H.
  rewrite <- (Z.sub_0_l a), <- (Z.sub_0_l b).
  rewrite <- (Zminus_mod_idemp_r 0 a), <- (Zminus_mod_idemp_r 0 b). by rewrite H.
Qed.

Lemma uint32_land_mask x : uint32 (Z.land x 0xFFFFFFFF) = uint32 x.
Proof.
  change 0xFFFFFFFF with (Z.ones 32). rewrite Z.land_ones by lia.
  unfold uint32. apply Z.mod_mod. lia.
Qed.

(** Modulo 2^32 the expression of the relative pass is the quotient,
    rounded down, of budget times weight by a positive total weight. *)
Lemma relative_share_mod B R s :
  0 <= B < 2 ^ 31 -> 0 < R -> is_sint32 s -> s < 0 ->
  uint32 (relative_share (uint64 B) R s) = uint32 ((B * - s) / R).
Proof.
  unfold is_sint32. intros HB HR Hs Hneg. unfold relative_share.
  rewrite uint64_small, (sint64_small B) by lia.
  rewrite sint64_small by nia.
  replace (B * s) with (- (B * - s)) by lia.
  rewrite Z.quot_opp_l by lia.
  rewrite Z.quot_div_nonneg by nia.
  rewrite uint32_sint32.
  rewrite <- (Z.opp_involutive (B * - s / R)) at 2.
  apply uint32_opp_congr.
  by rewrite uint32_sint32, uint32_land_mask.
Qed.

(** The absolute pass keeps [sectorsleft] a 32-bit value, keeps the length
    of the array, and leaves a slot that is not positive alone. *)
Lemma reserve_absolute_invariant i js st :
  is_sint32 st.1.2 ->
  is_sint32 (foldl reserve_absolute st js).1.2
  /\ length (foldl reserve_absolute st js).1.1 = length st.1.1
  /\ (st.1.1 !!! i <= 0 -> (foldl reserve_absolute st js).1.1 !!! i = st.1.1 !!! i).
Proof.
  revert st. induction js as [|j js IH]; intros [[size sl] rt] Hsl; cbn [fst snd] in *.
  - done.
  - cbn [foldl].
    assert (is_sint32 (reserve_absolute (size, sl, rt) j).1.2
            /\ length (reserve_absolute (size, sl, rt) j).1.1 = length size
            /\ (size !!! i <= 0 ->
                (reserve_absolute (size, sl, rt) j).1.1 !!! i = size !!! i))
      as (S1 & S2 & S3).
    { unfold reserve_absolute.
      destruct (Z.ltb_spec 0 (size !!! j)) as [Hpos|Hle]; cbn [fst snd].
      - split; [apply sint32_range|]. split; [apply length_insert|].
        intros Hi. assert (j <> i) as Hne by (intros ->; lia).
        by rewrite list_lookup_total_insert_ne.
      - done. }
    destruct (IH (reserve_absolute (size, sl, rt) j) S1) as (I1 & I2 & I3).
    split; [done|]. split; [by rewrite I2|].
    intros Hi. rewrite I3; rewrite S3 by done; done.
Qed.

Lemma foldl_divide_relative_None D R js :
  foldl (divide_relative D R) None js = None.
Proof. induction js as [|j js IH]; [done|]. by cbn. Qed.

(** One step of the relative pass changes slot [j] only, and only when it
    is negative. *)
Lemma divide_relative_Some D R size sl j size' sl' :
  divide_relative D R (Some (size, sl)) j = Some (size', sl') ->
  length size' = length size
  /\ (forall i, i <> j -> size' !!! i = size !!! i)
  /\ ((j < length size)%nat -> size !!! j < 0 ->
      size' !!! j = relative_share D R (size !!! j)).
Proof.
  unfold divide_relative.
  destruct (Z.ltb_spec (size !!! j) 0) as [Hneg|Hge].
  - destruct (R =? 0); [done|]. intros [= <- <-].
    split; [apply length_insert|]. split.
    + intros i Hi. by rewrite list_lookup_total_insert_ne.
    + intros Hj _. by rewrite list_lookup_total_insert_eq.
  - intros [= <- <-]. split; [done|]. split; [done|]. lia.
Qed.

(** After the relative pass a slot that was negative before it holds the
    value of [relative_share] on the frozen budget. *)
Lemma foldl_divide_relative_lookup D R i js :
  NoDup js ->
  forall size sl size' sl',
    foldl (divide_relative D R) (Some (size, sl)) js = Some (size', sl') ->
    (i ∉ js -> size' !!! i = size !!! i)
    /\ (i ∈ js -> (i < length size)%nat -> size !!! i < 0 ->
        size' !!! i = relative_share D R (size !!! i)).
Proof.
  induction js as [|j js IH]; intros Hnd size sl size' sl' Hfold.
  - cbn in Hfold. injection Hfold as <- <-. split; [done|].
    intros Hin. by apply elem_of_nil in Hin.
  - apply NoDup_cons in Hnd as [Hj Hnd]. cbn [foldl] in Hfold.
    destruct (divide_relative D R (Some (size, sl)) j) as [[size1 sl1]|] eqn:Hstep.
    2:{ by rewrite foldl_divide_relative_None in Hfold. }
    destruct (divide_relative_Some _ _ _ _ _ _ _ Hstep) as (Hlen & Hother & Hat).
    destruct (IH Hnd _ _ _ _ Hfold) as [Hout Hin].
    split.
    + intros Hni. apply not_elem_of_cons in Hni as [Hne Hni].
      rewrite Hout by done. by apply Hother.
    + intros Hi Hlt Hneg. apply elem_of_cons in Hi as [->|Hi].
      * rewrite Hout by done. by apply Hat.
      * assert (i <> j) as Hne by (intros ->; done).
        rewrite Hin; rewrite ?Hlen, ?Hother by done; done.
Qed.

End GeneralPasses.

Section RelativeResolution.

(** C2 (amended): when the sizing part accepts a specification of 32-bit
    slots and the relative total accumulated by the absolute pass is
    positive (as it is whenever the weights sum to less than 2^31), every
    slot with a negative value is resolved, modulo 2^32, to the budget
    left by the absolute pass times the slot's weight, divided by the
    relative total and rounded down; the budget is the same for all slots.
    On the 1048576-sector device of scenario A, [10, -1, -4, 0] resolves
    to 20480, 205619, 822476 and 0 sectors, and the call returns 0 MB. *)
Theorem relative_resolution :
  (forall cfg size size1 B R res left i,
     length size = 4%nat -> Forall is_sint32 size ->
     foldl reserve_absolute
           (size, sint32 (uint32 (blktotal cfg - RESERVED_SECTORS)), 0) (seq 0 4)
       = (size1, B, R) ->
     partition_sizing cfg size = Sized res left ->
     0 < R -> (i < 4)%nat -> size !!! i < 0 ->
     uint32 (res !!! i) = uint32 ((B * - (size !!! i)) / R))
  /\ (tr_ret (blockio_write_partitiontable (disk 1048576 0 zero_sector) [10; -1; -4; 0])
        = Value 0
      /\ tr_size (blockio_write_partitiontable (disk 1048576 0 zero_sector)
                                               [10; -1; -4; 0])
        = [20480; 205619; 822476; 0]).
Proof.
  split; [|split; by vm_compute].
  intros cfg size size1 B R res left i Hlen Hint Hfold Hsized HR Hi Hneg.
  pose proof (reserve_absolute_invariant i (seq 0 4)
                (size, sint32 (uint32 (blktotal cfg - RESERVED_SECTORS)), 0)
                (sint32_range _)) as (HB31 & Hlen1 & Hkeep).
  rewrite Hfold in HB31, Hlen1, Hkeep. cbn [fst snd] in *.
  unfold partition_sizing in Hsized.
  destruct (negb (blksize cfg =? BLOCKIO_DEFAULT_SECTORSIZE)); [done|].
  rewrite Hfold in Hsized.
  destruct ((B <? 0) || ((B =? 0) && negb (R =? 0))) eqn:Hacc; [done|].
  apply orb_false_iff in Hacc as [HB _]. apply Z.ltb_ge in HB.
  destruct (foldl (divide_relative (uint64 B) R) (Some (size1, B)) (seq 0 4))
    as [[res' left']|] eqn:Hpass; [|done].
  injection Hsized as -> ->.
  destruct (foldl_divide_relative_lookup (uint64 B) R i (seq 0 4) (NoDup_seq 0 4)
              _ _ _ _ Hpass) as [_ Hin].
  rewrite Hin.
  - rewrite Hkeep by lia. apply relative_share_mod.
    + unfold is_sint32 in HB31. lia.
    + done.
    + apply Forall_lookup_total_1; [done|lia].
    + done.
  - apply elem_of_seq. lia.
  - lia.
  - rewrite Hkeep; lia.
Qed.

(** Slot 1 of scenario A: 1028095 * 1 / 5 = 205619. *)
Lemma relative_resolution_witness :
  uint32 ([20480; 205619; 822476; 0] !!! 1%nat) = uint32 ((1028095 * - (-1)) / 5).
Proof.
  refine (proj1 relative_resolution (disk_cfg 512 1048576 0) [10; -1; -4; 0]
            [20480; -1; -4; 0] 1028095 5 [20480; 205619; 822476; 0] 0 1%nat
            _ _ _ _ _ _ _).
  - reflexivity.
  - repeat (apply Forall_cons; split); try apply Forall_nil; unfold is_sint32; lia.
  - vm_compute. reflexivity.
  - vm_compute. reflexivity.
  - lia.
  - lia.
  - cbn. lia.
Defined.

(** C2 as stated fails when the relative total wraps: with two weights of
    2^30 on a device of 12 sectors the total is -2^31, the budget is 11,
    and slot 0 resolves to -5, which is neither the rounded-down quotient
    by the accumulated total nor the one by the true sum of the weights. *)
Lemma relative_resolution_counterexample :
  foldl reserve_absolute
        ([-1073741824; -1073741824; 0; 0],
         sint32 (uint32 (blktotal (disk_cfg 512 12 0) - RESERVED_SECTORS)), 0)
        (seq 0 4)
    = ([-1073741824; -1073741824; 0; 0], 11, -2147483648)
  /\ partition_sizing (disk_cfg 512 12 0) [-1073741824; -1073741824; 0; 0]
     = Sized [-5; -5; 0; 0] 21
  /\ uint32 (-5) <> uint32 ((11 * - (-1073741824)) / (-2147483648))
  /\ uint32 (-5) <> uint32 ((11 * - (-1073741824)) / 2147483648).
Proof.
  split; [by vm_compute|]. split; [by vm_compute|].
  split; vm_compute; discriminate.
Qed.

End RelativeResolution.

Section WriterFailures.




End WriterFailures.

(** * Further properties of the block-device interface *)

(** ** Acceptance and leftover of the sizing part *)

Section SizingRange.

Lemma budget_small bt T :
  0 <= bt <= 2 ^ 31 -> 0 <= T < 2 ^ 31 ->
  sint32 (sint32 (uint32 (bt - 1)) - T) = bt - 1 - T.
Proof.
  rewrite sint32_sub_l. unfold sint32, uint32.
  intros Hbt HT. Z.div_mod_to_equations. lia.
Qed.

Lemma budget_huge bt T :
  is_uint32 bt -> 0 <= T < 2 ^ 31 -> 2 ^ 31 <= bt - 1 - T ->
  sint32 (sint32 (uint32 (bt - 1)) - T) < 0.
Proof.
  rewrite sint32_sub_l. unfold is_uint32, sint32, uint32.
  intros Hbt HT Hx. Z.div_mod_to_equations. lia.
Qed.

Lemma relative_weight_nonneg size : 0 <= relative_weight size.
Proof.
  unfold relative_weight. induction size as [|s size IH]; cbn [foldr]; lia.
Qed.

Lemma share_nonneg B R s : 0 <= B -> 0 <= R -> 0 <= share B R s.
Proof.
  intros HB HR. unfold share. destruct (Z.ltb_spec s 0); [|lia].
  destruct (Z.eq_dec R 0) as [->|Hne]; [by rewrite Z.div_0_r|].
  apply Z.div_pos; nia.
Qed.

Lemma resolved_scaled_nonneg B R s : 0 <= B -> 0 <= R -> 0 <= resolved B R (scaled s).
Proof.
  intros HB HR. rewrite resolved_scaled.
  pose proof (share_nonneg B R (scaled s) HB HR). lia.
Qed.

(** With a positive total weight the shares leave at most three sectors
    of the budget. *)
Lemma shares_lower B R a b c d :
  0 <= B -> 0 < R -> R = relative_weight [a; b; c; d] ->
  B - 3 <= share B R (scaled a) + share B R (scaled b)
           + share B R (scaled c) + share B R (scaled d).
Proof.
  intros HB HR Hsum. unfold relative_weight in Hsum. cbn [foldr] in Hsum.
  rewrite !share_weight by lia.
  set (wa := Z.max (- a) 0) in *. set (wb := Z.max (- b) 0) in *.
  set (wc := Z.max (- c) 0) in *. set (wd := Z.max (- d) 0) in *.
  pose proof (Z.div_mod (B * wa) R ltac:(lia)) as Ea.
  pose proof (Z.div_mod (B * wb) R ltac:(lia)) as Eb.
  pose proof (Z.div_mod (B * wc) R ltac:(lia)) as Ec.
  pose proof (Z.div_mod (B * wd) R ltac:(lia)) as Ed.
  pose proof (Z.mod_pos_bound (B * wa) R HR).
  pose proof (Z.mod_pos_bound (B * wb) R HR).
  pose proof (Z.mod_pos_bound (B * wc) R HR).
  pose proof (Z.mod_pos_bound (B * wd) R HR).
  set (qa := B * wa / R) in *. set (qb := B * wb / R) in *.
  set (qc := B * wc / R) in *. set (qd := B * wd / R) in *.
  assert (R * (B - (qa + qb + qc + qd)) < 4 * R) as Hlt by nia.
  nia.
Qed.

(** Outcome of the sizing part in range, on a device of at most 2^31
    sectors, in terms of the true budget. *)
Lemma partition_sizing_small cfg a b c d :
  blksize cfg = BLOCKIO_DEFAULT_SECTORSIZE -> 0 <= blktotal cfg <= 2 ^ 31 ->
  absolute_total [a; b; c; d] < 2 ^ 20 ->
  relative_weight [a; b; c; d] < 2 ^ 31 ->
  let B := blktotal cfg - 1 - 2048 * absolute_total [a; b; c; d] in
  let R := relative_weight [a; b; c; d] in
  partition_sizing cfg [a; b; c; d] =
  if (B <? 0) || ((B =? 0) && negb (R =? 0)) then
    SizingError BLOCKIO_ERROR_FDISK_DISKFULL [scaled a; scaled b; scaled c; scaled d]
  else
    Sized [resolved B R (scaled a); resolved B R (scaled b);
           resolved B R (scaled c); resolved B R (scaled d)]
          (B - (share B R (scaled a) + share B R (scaled b)
                + share B R (scaled c) + share B R (scaled d))).
Proof.
  intros Hbs Hbt Habs Hrel. cbv zeta.
  destruct (absolute_total_bound a b c d Habs) as (Hnn & _).
  rewrite partition_sizing_in_range by (done || unfold is_uint32; lia).
  by rewrite budget_small by lia.
Qed.

(** X3: on a device of 512-byte blocks and at most 2^31 sectors, a
    four-slot specification in range (absolute slots under 2^20 MB in
    total, weights under 2^31 in total) is accepted by the sizing part
    exactly when the absolute slots leave a positive budget out of
    [blktotal - 1] sectors, or leave exactly none and no slot is relative;
    otherwise the sizing part fails with [BLOCKIO_ERROR_FDISK_DISKFULL]. *)
Theorem sizing_accepts_iff cfg size :
  blksize cfg = BLOCKIO_DEFAULT_SECTORSIZE -> 0 <= blktotal cfg <= 2 ^ 31 ->
  length size = 4%nat ->
  absolute_total size < 2 ^ 20 -> relative_weight size < 2 ^ 31 ->
  ((exists res left, partition_sizing cfg size = Sized res left)
   <-> 2048 * absolute_total size < blktotal cfg - 1
       \/ (2048 * absolute_total size = blktotal cfg - 1 /\ relative_weight size = 0))
  /\ ((exists res left, partition_sizing cfg size = Sized res left)
      \/ exists res, partition_sizing cfg size
                     = SizingError BLOCKIO_ERROR_FDISK_DISKFULL res).
Proof.
  intros Hbs Hbt Hlen Habs Hrel.
  destruct size as [|a [|b [|c [|d [|]]]]]; try done.
  rewrite partition_sizing_small by done.
  set (B := blktotal cfg - 1 - 2048 * absolute_total [a; b; c; d]).
  set (R := relative_weight [a; b; c; d]).
  destruct ((B <? 0) || ((B =? 0) && negb (R =? 0))) eqn:Hacc.
  - split; [|right; eauto]. split; [by intros (res & left & H)|].
    intros Hfit. exfalso.
    apply orb_true_iff in Hacc as [Hneg|Hzero].
    + apply Z.ltb_lt in Hneg. unfold B in Hneg. lia.
    + apply andb_true_iff in Hzero as [Hz Hr]. apply Z.eqb_eq in Hz.
      apply negb_true_iff, Z.eqb_neq in Hr. unfold B, R in *. lia.
  - split; [|left; eauto]. split; [|eauto]. intros _.
    apply orb_false_iff in Hacc as [Hneg Hzero]. apply Z.ltb_ge in Hneg.
    apply andb_false_iff in Hzero as [Hz|Hr].
    + apply Z.eqb_neq in Hz. unfold B in *. lia.
    + apply negb_false_iff, Z.eqb_eq in Hr. unfold B, R in *. lia.
Qed.

(** A device of one sector: the empty specification is accepted, one with
    a relative slot is not. *)
Lemma sizing_accepts_iff_witness :
  ((exists res left, partition_sizing (disk_cfg 512 1 0) [0; 0; 0; 0] = Sized res left)
   <-> 2048 * absolute_total [0; 0; 0; 0] < blktotal (disk_cfg 512 1 0) - 1
       \/ (2048 * absolute_total [0; 0; 0; 0] = blktotal (disk_cfg 512 1 0) - 1
           /\ relative_weight [0; 0; 0; 0] = 0))
  /\ ((exists res left, partition_sizing (disk_cfg 512 1 0) [0; -1; 0; 0]
                        = Sized res left)
      <-> 2048 * absolute_total [0; -1; 0; 0] < blktotal (disk_cfg 512 1 0) - 1
          \/ (2048 * absolute_total [0; -1; 0; 0] = blktotal (disk_cfg 512 1 0) - 1
              /\ relative_weight [0; -1; 0; 0] = 0)).
Proof.
  split.
  - apply (sizing_accepts_iff (disk_cfg 512 1 0) [0; 0; 0; 0]);
      (reflexivity || (cbn; lia) || (vm_compute; reflexivity)).
  - apply (sizing_accepts_iff (disk_cfg 512 1 0) [0; -1; 0; 0]);
      (reflexivity || (cbn; lia) || (vm_compute; reflexivity)).
Defined.

(** X4: on a device so large that more than 2^31 - 1 sectors remain after
    the reserved sector and the absolute slots, the sizing part reports
    the disk full whatever the (in-range) specification: the budget does
    not fit the 32-bit signed [sectorsleft]. *)
Theorem sizing_huge_device_full cfg size :
  blksize cfg = BLOCKIO_DEFAULT_SECTORSIZE -> is_uint32 (blktotal cfg) ->
  length size = 4%nat -> absolute_total size < 2 ^ 20 ->
  2 ^ 31 <= blktotal cfg - 1 - 2048 * absolute_total size ->
  partition_sizing cfg size
  = SizingError BLOCKIO_ERROR_FDISK_DISKFULL (scaled <$> size).
Proof.
  intros Hbs Hbt Hlen Habs Hhuge.
  destruct size as [|a [|b [|c [|d [|]]]]]; try done.
  destruct (absolute_total_bound a b c d Habs) as (Hnn & Ha & Hb & Hc & Hd).
  unfold partition_sizing. rewrite Hbs, Z.eqb_refl. cbn [negb].
  rewrite reserve_absolute_all by (done || apply sint32_range).
  unfold RESERVED_SECTORS.
  assert ((sint32 (sint32 (uint32 (blktotal cfg - 1))
                   - 2048 * absolute_total [a; b; c; d]) <? 0) = true) as ->.
  { apply Z.ltb_lt. apply budget_huge; [done|lia|done]. }
  done.
Qed.

(** A device of 2^31 + 1 sectors with one relative slot. *)
Lemma sizing_huge_device_full_witness :
  partition_sizing (disk_cfg 512 2147483649 0) [-1; 0; 0; 0]
  = SizingError BLOCKIO_ERROR_FDISK_DISKFULL (scaled <$> [-1; 0; 0; 0]).
Proof.
  apply (sizing_huge_device_full (disk_cfg 512 2147483649 0) [-1; 0; 0; 0]).
  - reflexivity.
  - unfold is_uint32. cbn. lia.
  - reflexivity.
  - vm_compute. reflexivity.
  - vm_compute. discriminate.
Defined.

End SizingRange.

(** ** What a call leaves to its caller *)

Section WriterResults.

Lemma share_zero_weight B s : share B 0 s = 0.
Proof. unfold share. destruct (s <? 0); [apply Z.div_0_r|done]. Qed.

(** A call that returns a value returns the leftover of the sizing part
    in megabytes. *)
Lemma write_partitiontable_value_mb fd size mb :
  tr_ret (blockio_write_partitiontable fd size) = Value mb ->
  exists cfg left,
    devctl_cfg fd = Some cfg /\
    partition_sizing cfg size
      = Sized (tr_size (blockio_write_partitiontable fd size)) left /\
    mb = sint32 (Z.quot left 2048).
Proof.
  unfold blockio_write_partitiontable.
  destruct (devctl_impl fd) as [impl|]; [|done].
  destruct (devctl_cfg fd) as [cfg|]; [|done].
  destruct (partition_sizing cfg size) as [res left|e res|] eqn:Hsz; cbn; [|done..].
  destruct (negb (write_sectors impl (build_table cfg res) 0 1 =? 1)); [done|].
  intros [= <-]. exists cfg, left. by rewrite sectors_per_mb.
Qed.

(** X5: after a successful [blockio_write_partitiontable] on a
    specification in range, every resolved sector count is non-negative
    and the counts plus the reserved sector fit the device.  Without a
    relative slot the call returns the whole remaining budget in MB,
    rounded down; with a relative slot the relative slots take all but at
    most three sectors of the budget and the call returns 0. *)
Theorem write_partitiontable_leftover fd cfg size mb :
  devctl_cfg fd = Some cfg -> is_uint32 (blktotal cfg) -> length size = 4%nat ->
  absolute_total size < 2 ^ 20 -> relative_weight size < 2 ^ 31 ->
  tr_ret (blockio_write_partitiontable fd size) = Value mb ->
  Forall (fun r => 0 <= r) (tr_size (blockio_write_partitiontable fd size))
  /\ RESERVED_SECTORS + total_sectors (tr_size (blockio_write_partitiontable fd size))
     <= blktotal cfg
  /\ (relative_weight size = 0 ->
      mb = (blktotal cfg - 1 - 2048 * absolute_total size) / 2048)
  /\ (0 < relative_weight size ->
      mb = 0
      /\ blktotal cfg - 3
         <= RESERVED_SECTORS
            + total_sectors (tr_size (blockio_write_partitiontable fd size))).
Proof.
  intros Hcfg Hbt Hlen Habs Hrel Hret.
  destruct (write_partitiontable_value_mb fd size mb Hret) as (cfg' & left & Hcfg' & Hsz & ->).
  assert (cfg' = cfg) as -> by congruence.
  set (res := tr_size (blockio_write_partitiontable fd size)) in *. clearbody res.
  destruct size as [|a [|b [|c [|d [|]]]]]; try done.
  destruct (Z.eqb_spec (blksize cfg) BLOCKIO_DEFAULT_SECTORSIZE) as [Hbs|Hbs].
  2:{ unfold partition_sizing in Hsz. apply Z.eqb_neq in Hbs. by rewrite Hbs in Hsz. }
  rewrite partition_sizing_in_range in Hsz by done.
  destruct (absolute_total_bound a b c d Habs) as (Hnn & _).
  pose proof (relative_weight_nonneg [a; b; c; d]) as Hrnn.
  set (T := 2048 * absolute_total [a; b; c; d]) in *.
  set (B := sint32 (sint32 (uint32 (blktotal cfg - 1)) - T)) in *.
  set (R := relative_weight [a; b; c; d]) in *.
  destruct ((B <? 0) || ((B =? 0) && negb (R =? 0))) eqn:Hacc; [done|].
  apply orb_false_iff in Hacc as [HB _]. apply Z.ltb_ge in HB.
  injection Hsz as <- <-.
  assert (B = blktotal cfg - 1 - T) as HBeq
    by (apply budget_exact; [done|unfold T; lia|done]).
  pose proof (shares_bound B R a b c d HB eq_refl) as Hsh.
  assert (T = 2048 * Z.max a 0 + 2048 * Z.max b 0 + 2048 * Z.max c 0 + 2048 * Z.max d 0)
    as HT by (unfold T, absolute_total; cbn [foldr]; lia).
  assert (B < 2 ^ 31) as HB31.
  { pose proof (sint32_range (sint32 (uint32 (blktotal cfg - 1)) - T)) as Hr.
    unfold is_sint32 in Hr. fold B in Hr. lia. }
  unfold RESERVED_SECTORS, total_sectors. cbn [foldr]. rewrite !resolved_scaled.
  split; [|split; [lia|split]].
  - repeat (apply Forall_cons; split); try apply Forall_nil; try done; cbn beta;
      match goal with
      | |- 0 <= _ + share ?B' ?R' ?s => pose proof (share_nonneg B' R' s HB Hrnn)
      end; lia.
  - intros HR0. rewrite HR0, !share_zero_weight, !Z.add_0_r, Z.sub_0_r.
    rewrite Z.quot_div_nonneg by lia.
    rewrite sint32_small; [by rewrite HBeq|].
    unfold is_sint32. split; [pose proof (Z.div_pos B 2048); lia|].
    pose proof (Z.div_le_upper_bound B 2048 B); lia.
  - intros HRpos. pose proof (shares_lower B R a b c d HB HRpos eq_refl) as Hlo.
    split; [|lia].
    rewrite Z.quot_small by lia. done.
Qed.

(** Scenario A: the relative slots absorb the budget, 0 MB is returned. *)
Lemma write_partitiontable_leftover_witness :
  0 = 0
  /\ blktotal (disk_cfg 512 1048576 0) - 3
     <= RESERVED_SECTORS
        + total_sectors (tr_size (blockio_write_partitiontable
                                    (disk 1048576 0 zero_sector) [10; -1; -4; 0])).
Proof.
  refine (proj2 (proj2 (proj2 (write_partitiontable_leftover
            (disk 1048576 0 zero_sector) (disk_cfg 512 1048576 0)
            [10; -1; -4; 0] 0 _ _ _ _ _ _))) _).
  - reflexivity.
  - unfold is_uint32. cbn. lia.
  - reflexivity.
  - vm_compute. reflexivity.
  - vm_compute. reflexivity.
  - vm_compute. reflexivity.
  - vm_compute. reflexivity.
Defined.

(** The absolute pass rewrites slot [i] exactly when it is positive. *)
Lemma reserve_absolute_lookup i js :
  NoDup js ->
  forall st,
    (i < length st.1.1)%nat ->
    (foldl reserve_absolute st js).1.1 !!! i =
    if bool_decide (i ∈ js) && (0 <? st.1.1 !!! i)
    then sint32 (st.1.1 !!! i * 2048) else st.1.1 !!! i.
Proof.
  induction js as [|j js IH]; intros Hnd [[size sl] rt] Hi; cbn [fst snd] in *.
  - done.
  - apply NoDup_cons in Hnd as [Hj Hnd]. cbn [foldl].
    assert ((reserve_absolute (size, sl, rt) j).1.1
            = if 0 <? size !!! j then <[j := sint32 (size !!! j * 2048)]> size else size)
      as Hstep.
    { unfold reserve_absolute. rewrite sectors_per_mb.
      by destruct (0 <? size !!! j). }
    rewrite IH; [|done|rewrite Hstep; destruct (0 <? size !!! j);
                        by rewrite ?length_insert].
    rewrite Hstep.
    destruct (decide (i = j)) as [->|Hne].
    + rewrite (bool_decide_eq_false_2 (j ∈ js)) by done.
      rewrite (bool_decide_eq_true_2 (j ∈ j :: js)) by apply list_elem_of_here.
      cbn [andb].
      destruct (0 <? size !!! j); [|done].
      by rewrite list_lookup_total_insert_eq.
    + assert (bool_decide (i ∈ j :: js) = bool_decide (i ∈ js)) as ->.
      { apply bool_decide_ext. rewrite elem_of_cons.
        split; [by intros [?|?]|by right]. }
      destruct (0 <? size !!! j); [|done].
      by rewrite list_lookup_total_insert_ne.
Qed.

(** X6: what a failed [blockio_write_partitiontable] leaves in the
    caller's four-entry [size] array.  After a failed lookup or the
    block-size error the array is untouched.  After the disk-full error
    every positive entry has already been converted to sectors (times
    2048, in 32 bits) and the other entries are unchanged.  After a failed
    final write the array holds the resolved sizes of the sizing part. *)
Theorem write_partitiontable_array_on_failure fd size e :
  length size = 4%nat ->
  tr_ret (blockio_write_partitiontable fd size) = Error e ->
  (e = BLOCKIO_ERROR_BLOCKSIZE_UNSUPPORTED ->
   tr_size (blockio_write_partitiontable fd size) = size)
  /\ (e = BLOCKIO_ERROR_IO ->
      sector_io (tr_trace (blockio_write_partitiontable fd size)) = [] ->
      tr_size (blockio_write_partitiontable fd size) = size)
  /\ (e = BLOCKIO_ERROR_IO ->
      sector_io (tr_trace (blockio_write_partitiontable fd size)) <> [] ->
      exists cfg left,
        devctl_cfg fd = Some cfg /\
        partition_sizing cfg size
        = Sized (tr_size (blockio_write_partitiontable fd size)) left)
  /\ (e = BLOCKIO_ERROR_FDISK_DISKFULL ->
      forall i, (i < 4)%nat ->
        tr_size (blockio_write_partitiontable fd size) !!! i =
        if 0 <? size !!! i then sint32 (size !!! i * 2048) else size !!! i).
Proof.
  intros Hlen. unfold blockio_write_partitiontable.
  destruct (devctl_impl fd) as [impl|]; [|cbn; intros [= <-]; by repeat split].
  destruct (devctl_cfg fd) as [cfg|]; [|cbn; intros [= <-]; by repeat split].
  destruct (partition_sizing cfg size) as [res left|err res|] eqn:Hsz; [| |done].
  - cbn [tr_ret tr_size tr_trace].
    destruct (negb (write_sectors impl (build_table cfg res) 0 1 =? 1)); [|done].
    intros [= <-]. split; [done|]. split; [by cbn|]. split; [|done].
    intros _ _. by exists cfg, left.
  - cbn [tr_ret tr_size tr_trace]. intros [= ->].
    unfold partition_sizing in Hsz.
    destruct (negb (blksize cfg =? BLOCKIO_DEFAULT_SECTORSIZE)).
    { injection Hsz as <- <-. by repeat split. }
    pose proof (reserve_absolute_lookup) as Hlook.
    destruct (foldl reserve_absolute
                (size, sint32 (uint32 (blktotal cfg - RESERVED_SECTORS)), 0) (seq 0 4))
      as [[size1 sl] rt] eqn:Hfold.
    destruct ((sl <? 0) || ((sl =? 0) && negb (rt =? 0))).
    2:{ by destruct (foldl (divide_relative _ _) _ _) as [[? ?]|]. }
    injection Hsz as <- <-. split; [done|]. split; [done|]. split; [done|].
    intros _ i Hi.
    specialize (Hlook i (seq 0 4) (NoDup_seq 0 4)
                  (size, sint32 (uint32 (blktotal cfg - RESERVED_SECTORS)), 0)).
    rewrite Hfold in Hlook. cbn [fst snd] in Hlook.
    rewrite Hlook by lia.
    rewrite bool_decide_eq_true_2; [done|]. apply elem_of_seq. lia.
Qed.

(** Three slots of 1 MB on a device of 4097 sectors: the array comes back
    in sectors. *)
Lemma write_partitiontable_array_on_failure_witness :
  tr_size (blockio_write_partitiontable (disk 4097 0 zero_sector) [1; 1; 1; 0]) !!! 0%nat =
  if 0 <? [1; 1; 1; 0] !!! 0%nat then sint32 ([1; 1; 1; 0] !!! 0%nat * 2048)
  else [1; 1; 1; 0] !!! 0%nat.
Proof.
  refine (proj2 (proj2 (proj2 (write_partitiontable_array_on_failure
            (disk 4097 0 zero_sector) [1; 1; 1; 0] BLOCKIO_ERROR_FDISK_DISKFULL _ _)))
            _ 0%nat _).
  - reflexivity.
  - vm_compute. reflexivity.
  - reflexivity.
  - lia.
Defined.

End WriterResults.

(** ** The written table as a record *)

Section TableRecord.

Lemma load_load off m k n (buf : list Z) :
  (k + n <= m)%nat -> load k n (load off m buf) = load (off + k) n buf.
Proof.
  intros Hk. unfold load. apply list_eq. intros j.
  rewrite !lookup_take, !lookup_drop.
  destruct (decide (j < n)%nat) as [Hj|Hj]; [|done].
  rewrite lookup_take, lookup_drop.
  destruct (decide (k + j < m)%nat); [|lia]. f_equal. lia.
Qed.

Lemma lookup_total_load off n k (buf : list Z) :
  (k < n)%nat -> load off n buf !!! k = buf !!! (off + k)%nat.
Proof.
  intros Hk. rewrite !list_lookup_total_alt. unfold load.
  rewrite lookup_take, lookup_drop. by destruct (decide (k < n)%nat).
Qed.

Lemma load_replicate off n m :
  (off + n <= m)%nat -> load off n (replicate m 0) = replicate n 0.
Proof.
  intros Hb. unfold load. rewrite drop_replicate, take_replicate. f_equal. lia.
Qed.

(** A region of a buffer that is clear reads as zero, byte by byte and
    block by block. *)
Lemma clear_region (buf : list Z) off m :
  load off m buf = replicate m 0 ->
  (forall k, (k < m)%nat -> buf !!! (off + k)%nat = 0)
  /\ (forall k n, (k + n <= m)%nat -> load (off + k) n buf = replicate n 0).
Proof.
  intros Hclear. split.
  - intros k Hk. rewrite <- (lookup_total_load off m k buf Hk), Hclear.
    by apply lookup_total_replicate_2.
  - intros k n Hk. rewrite <- (load_load off m k n buf Hk), Hclear.
    by apply load_replicate.
Qed.

Lemma little_value_replicate n : little_value (replicate n 0) = 0.
Proof.
  induction n as [|n IH]; [done|].
  cbn [replicate]. rewrite little_value_cons, IH. lia.
Qed.

(** An entry whose first eight bytes are clear decodes to a used entry
    with its two 32-bit members. *)
Lemma decode_partinfo_used buf i :
  load (partition_off i) startsector_off buf = replicate startsector_off 0 ->
  decode_partinfo buf i = used_entry (mbr_startsector buf i) (mbr_sectors buf i).
Proof.
  intros Hclear. destruct (clear_region buf _ _ Hclear) as [Hbyte Hblock].
  unfold decode_partinfo, used_entry, mbr_startsector, mbr_sectors.
  unfold state_off, begin_head_off, begin_cylindersector_off, type_off, end_head_off,
    end_cylindersector_off, startsector_off in *.
  rewrite !Hbyte by lia. rewrite !Hblock by lia. done.
Qed.

(** A cleared entry decodes to the cleared record. *)
Lemma decode_partinfo_clear buf i :
  mbr_entry buf i = replicate partinfo_size 0 ->
  decode_partinfo buf i = clear_entry.
Proof.
  unfold mbr_entry. intros Hclear.
  destruct (clear_region buf _ _ Hclear) as [Hbyte Hblock].
  unfold decode_partinfo, clear_entry, read_little32from16.
  unfold state_off, begin_head_off, begin_cylindersector_off, type_off, end_head_off,
    end_cylindersector_off, startsector_off, sectors_off, partinfo_size in *.
  rewrite !Hbyte by lia. rewrite !Hblock by lia.
  by rewrite little_value_replicate.
Qed.

Lemma build_table_bootcode cfg size :
  load 0 bootcode_size (build_table cfg size) = replicate bootcode_size 0.
Proof.
  unfold build_table.
  set (st0 := (zero_sector, uint32 (blkstart cfg + RESERVED_SECTORS))).
  assert (Forall (fun j => (j < 4)%nat) (seq 0 4)) as Hjs
    by (apply Forall_seq; intros; lia).
  pose proof (foldl_write_entry_length size (seq 0 4) st0 Hjs length_zero_sector) as Hlen.
  assert (load 0 bootcode_size (foldl (write_entry size) st0 (seq 0 4)).1
          = load 0 bootcode_size st0.1) as Hfr.
  { apply foldl_write_entry_frame; [|apply length_zero_sector].
    apply Forall_seq. intros j Hj. split; [lia|]. left.
    unfold partition_off, bootcode_size, partinfo_size, startsector_off. lia. }
  destruct (foldl (write_entry size) st0 (seq 0 4)) as [buf s].
  cbn [fst] in *.
  rewrite load_write_little16_ne;
    [|unfold signature_off, bootcode_size, partinfo_size; lia
     |left; unfold signature_off, bootcode_size, partinfo_size; lia].
  rewrite Hfr. apply load_zero_sector. unfold bootcode_size. lia.
Qed.

Lemma decode_build_table_entry cfg res i :
  (i < 4)%nat -> decode_partinfo (build_table cfg res) i = table_entry cfg res i.
Proof.
  intros Hi. unfold table_entry.
  destruct (Z.eqb_spec (res !!! i) 0) as [Hz|Hnz].
  - apply decode_partinfo_clear. by apply build_table_unused.
  - destruct (build_table_used cfg res i Hi Hnz) as (Hs & Hc & Hclear).
    rewrite decode_partinfo_used by done. by rewrite Hs, Hc.
Qed.

(** The sector built from resolved sizes decodes to the table record. *)
Lemma decode_build_table cfg res :
  decode (build_table cfg res) = table_record cfg res.
Proof.
  unfold decode, table_record. f_equal.
  - apply build_table_bootcode.
  - cbn [seq fmap list_fmap].
    rewrite !decode_build_table_entry by lia. done.
  - apply build_table_signature.
Qed.

(** X7: the sector written by a successful
    [blockio_write_partitiontable] is a complete fresh MBR: it is 512
    bytes long and decodes to boot code all zero, signature 0xAA55, and
    four entries in which every member but [startsector] and [sectors] is
    zero (type 0 included); an unused slot has those two zero as well.
    Nothing of the sector previously on the device is kept. *)
Theorem write_partitiontable_fresh_mbr fd size mb :
  tr_ret (blockio_write_partitiontable fd size) = Value mb ->
  exists cfg buf,
    devctl_cfg fd = Some cfg /\
    sector_io (tr_trace (blockio_write_partitiontable fd size))
      = [WriteSectors buf 0 1 1] /\
    length buf = 512%nat /\
    decode buf = table_record cfg (tr_size (blockio_write_partitiontable fd size)).
Proof.
  intros Hret.
  destruct (write_partitiontable_value fd size mb Hret) as (impl & cfg & _ & Hcfg & _ & Ht).
  exists cfg, (build_table cfg (tr_size (blockio_write_partitiontable fd size))).
  split; [done|]. split; [by rewrite Ht|].
  split; [apply build_table_length|apply decode_build_table].
Qed.

Lemma write_partitiontable_fresh_mbr_witness :
  exists cfg buf,
    devctl_cfg (disk 1048576 0 (encode example_mbr)) = Some cfg /\
    sector_io (tr_trace (blockio_write_partitiontable
                           (disk 1048576 0 (encode example_mbr)) [10; -1; -4; 0]))
      = [WriteSectors buf 0 1 1] /\
    length buf = 512%nat /\
    decode buf = table_record cfg
                   (tr_size (blockio_write_partitiontable
                               (disk 1048576 0 (encode example_mbr)) [10; -1; -4; 0])).
Proof.
  apply (write_partitiontable_fresh_mbr (disk 1048576 0 (encode example_mbr))
           [10; -1; -4; 0] 0).
  vm_compute. reflexivity.
Defined.

End TableRecord.

(** ** Selecting from a freshly written table *)

Section WriteThenSelect.

(** Resolved sizes of an accepted specification in range. *)
Lemma sized_in_range cfg size res left :
  is_uint32 (blktotal cfg) -> length size = 4%nat ->
  absolute_total size < 2 ^ 20 -> relative_weight size < 2 ^ 31 ->
  partition_sizing cfg size = Sized res left ->
  length res = 4%nat
  /\ Forall (fun r => 0 <= r) res
  /\ 0 <= left
  /\ RESERVED_SECTORS + total_sectors res + left = blktotal cfg.
Proof.
  intros Hbt Hlen Habs Hrel Hsz.
  destruct size as [|a [|b [|c [|d [|]]]]]; try done.
  destruct (Z.eqb_spec (blksize cfg) BLOCKIO_DEFAULT_SECTORSIZE) as [Hbs|Hbs].
  2:{ unfold partition_sizing in Hsz. apply Z.eqb_neq in Hbs. by rewrite Hbs in Hsz. }
  rewrite partition_sizing_in_range in Hsz by done.
  destruct (absolute_total_bound a b c d Habs) as (Hnn & _).
  pose proof (relative_weight_nonneg [a; b; c; d]) as Hrnn.
  set (T := 2048 * absolute_total [a; b; c; d]) in *.
  set (B := sint32 (sint32 (uint32 (blktotal cfg - 1)) - T)) in *.
  set (R := relative_weight [a; b; c; d]) in *.
  destruct ((B <? 0) || ((B =? 0) && negb (R =? 0))) eqn:Hacc; [done|].
  apply orb_false_iff in Hacc as [HB _]. apply Z.ltb_ge in HB.
  injection Hsz as <- <-.
  assert (B = blktotal cfg - 1 - T) as HBeq
    by (apply budget_exact; [done|unfold T; lia|done]).
  pose proof (shares_bound B R a b c d HB eq_refl) as Hsh.
  assert (T = 2048 * Z.max a 0 + 2048 * Z.max b 0 + 2048 * Z.max c 0 + 2048 * Z.max d 0)
    as HT by (unfold T, absolute_total; cbn [foldr]; lia).
  split; [done|]. split; [|split; [lia|]].
  - repeat (apply Forall_cons; split); try apply Forall_nil; try done; cbn beta;
      by apply resolved_scaled_nonneg.
  - unfold RESERVED_SECTORS, total_sectors. cbn [foldr]. rewrite !resolved_scaled. lia.
Qed.

(** For four non-negative sizes the loop's running sum over the slots
    before [i] is the plain sum, and no partial sum exceeds the total. *)
Lemma sectors_of_before res i :
  length res = 4%nat -> (i < 4)%nat ->
  sectors_of res (seq 0 i) = sectors_before res i.
Proof.
  intros Hlen Hi.
  destruct res as [|r0 [|r1 [|r2 [|r3 [|]]]]]; try done.
  unfold sectors_of, sectors_before, total_sectors.
  destruct i as [|[|[|[|]]]]; try lia; cbn [seq take foldr lookup_total list_lookup_total];
    repeat match goal with
           | |- context [?x =? 0] => destruct (Z.eqb_spec x 0)
           end; lia.
Qed.

Lemma sectors_before_bound res i :
  length res = 4%nat -> (i < 4)%nat -> Forall (fun r => 0 <= r) res ->
  0 <= sectors_before res i
  /\ 0 <= res !!! i
  /\ sectors_before res i + res !!! i <= total_sectors res.
Proof.
  intros Hlen Hi Hnn.
  destruct res as [|r0 [|r1 [|r2 [|r3 [|]]]]]; try done.
  apply Forall_cons in Hnn as [H0 Hnn]. apply Forall_cons in Hnn as [H1 Hnn].
  apply Forall_cons in Hnn as [H2 Hnn]. apply Forall_cons in Hnn as [H3 _].
  unfold sectors_before, total_sectors.
  destruct i as [|[|[|[|]]]]; try lia;
    cbn [take foldr lookup_total list_lookup_total]; lia.
Qed.

(** X8: what is written can be selected.  Take a device whose address
    space starts at sector 0 and which has no [sanity_check].  After a
    successful [blockio_write_partitiontable] for a specification in
    range, if the device returns the written sector, then
    [blockio_select_partition] succeeds for every partition number 1..4
    with type 0; for a used slot it yields the resolved sector count and
    the start 1 + (sum of the counts of the slots before it), for an unused
    slot the extent (0, 0); and every extent ends within the device. *)
Theorem write_then_select fd cfg size mb buf fd2 impl2 nr v w :
  devctl_cfg fd = Some cfg -> blkstart cfg = 0 -> is_uint32 (blktotal cfg) ->
  length size = 4%nat ->
  absolute_total size < 2 ^ 20 -> relative_weight size < 2 ^ 31 ->
  tr_ret (blockio_write_partitiontable fd size) = Value mb ->
  sector_io (tr_trace (blockio_write_partitiontable fd size))
    = [WriteSectors buf 0 1 1] ->
  devctl_impl fd2 = Some impl2 -> devctl_cfg fd2 = Some cfg ->
  sanity_check impl2 = None -> read_sectors impl2 0 1 = (1, buf) ->
  1 <= nr <= 4 ->
  let res := tr_size (blockio_write_partitiontable fd size) in
  let i := Z.to_nat (nr - 1) in
  let r := blockio_select_partition fd2 nr (Some v) (Some w) in
  sr_ret r = Value 0
  /\ sr_blkcount r = Some (res !!! i)
  /\ sr_blkstart r
     = Some (if res !!! i =? 0 then 0 else RESERVED_SECTORS + sectors_before res i)
  /\ RESERVED_SECTORS + sectors_before res i + res !!! i <= blktotal cfg.
Proof.
  intros Hcfg Hbase Hbt Hlen Habs Hrel Hret Hio Himpl2 Hcfg2 Hnocheck Hread Hnr.
  cbv zeta.
  destruct (write_partitiontable_value fd size mb Hret)
    as (impl & cfg' & _ & Hcfg' & (left & Hsz) & Ht).
  assert (cfg' = cfg) as -> by congruence.
  set (res := tr_size (blockio_write_partitiontable fd size)) in *.
  rewrite Ht in Hio. injection Hio as <-.
  destruct (sized_in_range cfg size res left Hbt Hlen Habs Hrel Hsz)
    as (Hlres & Hnn & Hleft & Hcons).
  set (i := Z.to_nat (nr - 1)).
  assert (i < 4)%nat as Hi by (unfold i; lia).
  destruct (sectors_before_bound res i Hlres Hi Hnn) as (Hb0 & Hri & Hpart).
  unfold is_uint32, RESERVED_SECTORS in *.
  assert (mbr_type (build_table cfg res) i = 0
          /\ mbr_sectors (build_table cfg res) i = res !!! i
          /\ mbr_startsector (build_table cfg res) i
             = (if res !!! i =? 0 then 0 else 1 + sectors_before res i))
    as (Hty & Hcount & Hstart).
  { pose proof (decode_build_table_entry cfg res i Hi) as Hdec.
    unfold table_entry in Hdec.
    assert (type (decode_partinfo (build_table cfg res) i)
            = mbr_type (build_table cfg res) i) as <- by done.
    assert (sectors (decode_partinfo (build_table cfg res) i)
            = mbr_sectors (build_table cfg res) i) as <- by done.
    assert (startsector (decode_partinfo (build_table cfg res) i)
            = mbr_startsector (build_table cfg res) i) as <- by done.
    rewrite Hdec.
    destruct (Z.eqb_spec (res !!! i) 0) as [Hz|Hnz]; [by rewrite Hz|].
    cbn [type sectors startsector used_entry].
    rewrite sectors_of_before by done.
    rewrite Hbase, !uint32_small by (unfold is_uint32, RESERVED_SECTORS; lia).
    done. }
  unfold blockio_select_partition.
  assert ((nr <? 1) || (nr >? 4) = false) as ->.
  { apply orb_false_iff. rewrite Z.ltb_ge, Z.gtb_ltb, Z.ltb_ge. lia. }
  rewrite Himpl2, Hcfg2, Hbase, Hread. cbn [negb Z.eqb Pos.eqb].
  rewrite build_table_signature, Z.eqb_refl. cbn [negb].
  rewrite Hnocheck. fold i. rewrite Hty, Hcount, Hstart.
  assert (((if res !!! i =? 0 then 0 else 1 + sectors_before res i) >? blktotal cfg)
          || (res !!! i >? uint32 (blktotal cfg
                  - (if res !!! i =? 0 then 0 else 1 + sectors_before res i)))
          = false) as ->.
  { apply orb_false_iff. rewrite !Z.gtb_ltb, !Z.ltb_ge.
    destruct (Z.eqb_spec (res !!! i) 0) as [Hz|Hnz].
    - rewrite uint32_small by (unfold is_uint32; lia). lia.
    - rewrite uint32_small by (unfold is_uint32; lia). lia. }
  cbn [sr_ret sr_blkstart sr_blkcount]. repeat split; lia.
Qed.

(** Scenario A written and read back: partition 3 starts at sector 226100
    and has 822476 sectors. *)
Lemma write_then_select_witness :
  let res := [20480; 205619; 822476; 0] in
  let r := blockio_select_partition
             (disk 1048576 0 (build_table (disk_cfg 512 1048576 0) res)) 3
             (Some 0) (Some 0) in
  sr_ret r = Value 0
  /\ sr_blkcount r = Some 822476
  /\ sr_blkstart r = Some 226100.
Proof.
  cbv zeta.
  pose proof (write_then_select (disk 1048576 0 zero_sector) (disk_cfg 512 1048576 0)
                [10; -1; -4; 0] 0
                (build_table (disk_cfg 512 1048576 0) [20480; 205619; 822476; 0])
                (disk 1048576 0 (build_table (disk_cfg 512 1048576 0)
                                             [20480; 205619; 822476; 0]))
                (ideal_impl (build_table (disk_cfg 512 1048576 0)
                                         [20480; 205619; 822476; 0]))
                3 0 0) as H.
  cbv zeta in H.
  destruct H as (H1 & H2 & H3 & _).
  - reflexivity.
  - reflexivity.
  - unfold is_uint32. cbn. lia.
  - reflexivity.
  - vm_compute. reflexivity.
  - vm_compute. reflexivity.
  - vm_compute. reflexivity.
  - vm_compute. reflexivity.
  - reflexivity.
  - reflexivity.
  - reflexivity.
  - reflexivity.
  - lia.
  - split; [exact H1|]. split.
    + rewrite H2. vm_compute. reflexivity.
    + rewrite H3. vm_compute. reflexivity.
Defined.

End WriteThenSelect.

(** ** Selecting after a type patch *)

Section PatchThenSelect.

Lemma load_insert_ne (buf : list Z) k x off n :
  (k < off)%nat \/ (off + n <= k)%nat ->
  load off n (<[k := x]> buf) = load off n buf.
Proof.
  intros Hd. unfold load. apply list_eq. intros j.
  rewrite !lookup_take, !lookup_drop.
  destruct (decide (j < n)%nat); [|done].
  apply list_lookup_insert_ne. lia.
Qed.

(** Storing a type byte in entry [j] changes no signature, no start and
    no count, and no type but that of entry [j]. *)
Lemma patched_fields (buf : list Z) j t :
  (j < 4)%nat -> length buf = 512%nat ->
  let buf' := <[(partition_off j + type_off)%nat := t]> buf in
  mbr_signature buf' = mbr_signature buf
  /\ (forall i, (i < 4)%nat ->
        mbr_startsector buf' i = mbr_startsector buf i
        /\ mbr_sectors buf' i = mbr_sectors buf i
        /\ mbr_type buf' i = if decide (i = j) then t else mbr_type buf i).
Proof.
  intros Hj Hlen. cbv zeta.
  unfold mbr_signature, mbr_startsector, mbr_sectors, mbr_type,
    read_little16from16, read_little32from16.
  split.
  - rewrite load_insert_ne; [done|].
    unfold partition_off, signature_off, bootcode_size, partinfo_size, type_off. lia.
  - intros i Hi. split; [|split].
    + rewrite load_insert_ne; [done|].
      unfold partition_off, bootcode_size, partinfo_size, type_off, startsector_off. lia.
    + rewrite load_insert_ne; [done|].
      unfold partition_off, bootcode_size, partinfo_size, type_off, sectors_off. lia.
    + destruct (decide (i = j)) as [->|Hne].
      * apply list_lookup_total_insert_eq.
        unfold partition_off, bootcode_size, partinfo_size, type_off. lia.
      * apply list_lookup_total_insert_ne.
        unfold partition_off, bootcode_size, partinfo_size, type_off. lia.
Qed.

(** What a successful patch has written. *)
Lemma write_partitiontype_written fd impl cfg buf nr t :
  1 <= nr <= 4 -> is_byte t ->
  devctl_impl fd = Some impl -> devctl_cfg fd = Some cfg ->
  read_sectors impl (blkstart cfg) 1 = (1, buf) ->
  (blockio_write_partitiontype fd nr t).1 = Value 0 ->
  (blockio_write_partitiontype fd nr t).2 =
  [Devctl DEVCTL_BLOCKIO_IMPL; Devctl DEVCTL_BLOCKIO_CFG;
   ReadSectors (blkstart cfg) 1 1;
   WriteSectors (<[(partition_off (Z.to_nat (nr - 1)) + type_off)%nat := t]> buf)
                (blkstart cfg) 1 1].
Proof.
  intros Hnr Hty Himpl Hcfg Hrd.
  destruct (partition_type_addr_valid nr Hnr) as [Haddr Hin].
  unfold blockio_write_partitiontype. rewrite Himpl, Hcfg, Hrd.
  change (negb (1 =? 1)) with false. cbv iota.
  assert ((0 <=? partition_type_addr (nr - 1))
          && (partition_type_addr (nr - 1) <? BLOCKIO_DEFAULT_SECTORSIZE) = true) as ->.
  { apply andb_true_iff. rewrite Z.leb_le, Z.ltb_lt. lia. }
  rewrite Haddr, Nat2Z.id, land_byte by done.
  destruct (write_sectors impl _ (blkstart cfg) 1 =? 1) eqn:Hwr; cbn [negb fst snd];
    [|done].
  apply Z.eqb_eq in Hwr. by rewrite Hwr.
Qed.

(** X9: a type patch changes nothing of what
    [blockio_select_partition] yields except the type of the patched
    entry.  If [blockio_write_partitiontype fd nr t] succeeds on a sector
    of 512 bytes and the device then returns the sector that was written,
    selecting any partition [nr'] in 1..4 gives the same [*blkstart] and
    [*blkcount] and the same error as selecting it before the patch, and
    where it gave a type before it now gives [t] if [nr' = nr] and the old
    type otherwise. *)
Theorem patch_then_select fd impl cfg buf nr t written fd2 impl2 nr' v w :
  1 <= nr <= 4 -> is_byte t ->
  devctl_impl fd = Some impl -> devctl_cfg fd = Some cfg ->
  read_sectors impl (blkstart cfg) 1 = (1, buf) -> length buf = 512%nat ->
  (blockio_write_partitiontype fd nr t).1 = Value 0 ->
  WriteSectors written (blkstart cfg) 1 1 ∈ (blockio_write_partitiontype fd nr t).2 ->
  devctl_impl fd2 = Some impl2 -> devctl_cfg fd2 = Some cfg ->
  sanity_check impl2 = sanity_check impl ->
  read_sectors impl2 (blkstart cfg) 1 = (1, written) ->
  1 <= nr' <= 4 ->
  let before := blockio_select_partition fd nr' (Some v) (Some w) in
  let after := blockio_select_partition fd2 nr' (Some v) (Some w) in
  sr_blkstart after = sr_blkstart before
  /\ sr_blkcount after = sr_blkcount before
  /\ (forall e, sr_ret before = Error e -> sr_ret after = Error e)
  /\ (forall ty, sr_ret before = Value ty ->
        sr_ret after = Value (if nr' =? nr then t else ty)).
Proof.
  intros Hnr Hty Himpl Hcfg Hrd Hlen Hok Hwr Himpl2 Hcfg2 Hcheck Hrd2 Hnr'.
  cbv zeta.
  rewrite (write_partitiontype_written fd impl cfg buf nr t) in Hwr by done.
  set (j := Z.to_nat (nr - 1)) in *.
  assert (written = <[(partition_off j + type_off)%nat := t]> buf) as ->.
  { trace_mem Hwr. by injection Hwr. }
  clear Hwr.
  set (i := Z.to_nat (nr' - 1)).
  assert (j < 4)%nat as Hj by (unfold j; lia).
  assert (i < 4)%nat as Hi by (unfold i; lia).
  destruct (patched_fields buf j t Hj Hlen) as [Hsig Hfields].
  destruct (Hfields i Hi) as (Hs & Hc & Ht).
  unfold blockio_select_partition.
  assert ((nr' <? 1) || (nr' >? 4) = false) as ->.
  { apply orb_false_iff. rewrite Z.ltb_ge, Z.gtb_ltb, Z.ltb_ge. lia. }
  rewrite Himpl, Himpl2, Hcfg, Hcfg2, Hrd, Hrd2. cbn [negb Z.eqb Pos.eqb].
  rewrite Hsig. fold i. rewrite Hs, Hc, Ht, Hcheck.
  assert ((if decide (i = j) then t else mbr_type buf i)
          = if nr' =? nr then t else mbr_type buf i) as ->.
  { destruct (decide (i = j)) as [Heq|Hne], (Z.eqb_spec nr' nr) as [Hz|Hz];
      try done; unfold i, j in *; lia. }
  destruct (negb (mbr_signature buf =? BLOCKIO_MBR_SIGNATURE)); [done|].
  destruct (sanity_check impl) as [check|].
  - destruct (negb (check _ _ _)); cbn; repeat split; try done; by intros ? [= <-].
  - destruct (_ || _); cbn; repeat split; try done; by intros ? [= <-].
Qed.

(** Scenario D on the example table: after type 0x83 is set on entry 2,
    selecting entry 2 gives 0x83 and the extent (20481, 205619). *)
Lemma patch_then_select_witness :
  let after :=
    blockio_select_partition
      (disk 1048576 0 (<[(partition_off 1 + type_off)%nat := 0x83]> (encode example_mbr)))
      2 (Some 0) (Some 0) in
  sr_blkstart after = Some 20481
  /\ sr_blkcount after = Some 205619
  /\ sr_ret after = Value 0x83.
Proof.
  cbv zeta.
  pose proof (patch_then_select (disk 1048576 0 (encode example_mbr))
                (ideal_impl (encode example_mbr)) (disk_cfg 512 1048576 0)
                (encode example_mbr) 2 0x83
                (<[(partition_off 1 + type_off)%nat := 0x83]> (encode example_mbr))
                (disk 1048576 0
                   (<[(partition_off 1 + type_off)%nat := 0x83]> (encode example_mbr)))
                (ideal_impl
                   (<[(partition_off 1 + type_off)%nat := 0x83]> (encode example_mbr)))
                2 0 0) as H.
  cbv zeta in H.
  destruct H as (H1 & H2 & _ & H4).
  - lia.
  - unfold is_byte. lia.
  - reflexivity.
  - reflexivity.
  - reflexivity.
  - vm_compute. reflexivity.
  - vm_compute. reflexivity.
  - vm_compute. do 3 apply list_elem_of_further. apply list_elem_of_here.
  - reflexivity.
  - reflexivity.
  - reflexivity.
  - reflexivity.
  - lia.
  - split; [rewrite H1; by vm_compute|]. split; [rewrite H2; by vm_compute|].
    apply (H4 0x0B). by vm_compute.
Defined.

End PatchThenSelect.

(** ** Outcome of a selection *)

Section SelectOutcome.

Lemma little_value_nonneg bs : Forall is_byte bs -> 0 <= little_value bs.
Proof.
  induction 1 as [|b bs Hb _ IH]; [done|].
  rewrite little_value_cons. unfold is_byte in Hb. lia.
Qed.

Lemma bytes_check buf :
  forallb (fun b => (0 <=? b) && (b <? 256)) buf = true -> Forall is_byte buf.
Proof.
  induction buf as [|b buf IH]; cbn [forallb]; [by intros _; apply Forall_nil|].
  intros H. apply andb_true_iff in H as [Hb H].
  apply andb_true_iff in Hb as [H0 H1]. apply Z.leb_le in H0. apply Z.ltb_lt in H1.
  apply Forall_cons. split; [by split|by apply IH].
Qed.

Lemma load_bytes off n buf : Forall is_byte buf -> Forall is_byte (load off n buf).
Proof. intros H. unfold load. by apply Forall_take, Forall_drop. Qed.

(** X10: once the lookups and the read have succeeded, the signature is
    0xAA55 and the partition number is in 1..4, the result of
    [blockio_select_partition] is decided by one test of the entry's
    extent: the installed [sanity_check] if there is one (the built-in
    bounds test is then not applied), the built-in test otherwise.  An
    accepted extent is returned with the entry's type byte, a rejected one
    gives [BLOCKIO_ERROR_IO] and zeroed outputs.  Without a
    [sanity_check], on a sector of byte values, a returned extent always
    lies within the device: start + count <= blktotal. *)
Theorem select_partition_outcome fd impl cfg buf nr v w :
  devctl_impl fd = Some impl -> devctl_cfg fd = Some cfg ->
  read_sectors impl (blkstart cfg) 1 = (1, buf) ->
  mbr_signature buf = BLOCKIO_MBR_SIGNATURE -> 1 <= nr <= 4 ->
  let i := Z.to_nat (nr - 1) in
  let start := mbr_startsector buf i in
  let count := mbr_sectors buf i in
  let r := blockio_select_partition fd nr (Some v) (Some w) in
  (extent_accepted impl cfg start count = true ->
   sr_ret r = Value (mbr_type buf i)
   /\ sr_blkstart r = Some start /\ sr_blkcount r = Some count)
  /\ (extent_accepted impl cfg start count = false ->
      sr_ret r = Error BLOCKIO_ERROR_IO
      /\ sr_blkstart r = Some 0 /\ sr_blkcount r = Some 0)
  /\ (sanity_check impl = None -> is_uint32 (blktotal cfg) -> Forall is_byte buf ->
      forall ty, sr_ret r = Value ty ->
        0 <= start /\ 0 <= count /\ start + count <= blktotal cfg).
Proof.
  intros Himpl Hcfg Hrd Hsig Hnr. cbv zeta.
  unfold blockio_select_partition, extent_accepted.
  assert ((nr <? 1) || (nr >? 4) = false) as ->.
  { apply orb_false_iff. rewrite Z.ltb_ge, Z.gtb_ltb, Z.ltb_ge. lia. }
  rewrite Himpl, Hcfg, Hrd, Hsig, Z.eqb_refl. cbn [negb Z.eqb Pos.eqb].
  set (i := Z.to_nat (nr - 1)).
  set (start := mbr_startsector buf i). set (count := mbr_sectors buf i).
  destruct (sanity_check impl) as [check|].
  - destruct (check start count (blktotal cfg));
      cbn [negb sr_ret sr_blkstart sr_blkcount]; by repeat split.
  - destruct ((start >? blktotal cfg) || (count >? uint32 (blktotal cfg - start)))
      eqn:Hout; cbn [negb sr_ret sr_blkstart sr_blkcount];
      (split; [done|]); (split; [done|]); [done|].
    intros _ Hbt Hbytes ty _.
    apply orb_false_iff in Hout as [H1 H2].
    rewrite Z.gtb_ltb, Z.ltb_ge in H1, H2.
    assert (0 <= start) as Hs by (apply little_value_nonneg, load_bytes; done).
    assert (0 <= count) as Hc by (apply little_value_nonneg, load_bytes; done).
    unfold is_uint32 in Hbt.
    rewrite uint32_small in H2 by (unfold is_uint32; lia). lia.
Qed.

(** The example table on a device of 1048576 sectors: entry 3 ends at
    sector 1048576 and is returned. *)
Lemma select_partition_outcome_witness :
  sr_ret (blockio_select_partition (disk 1048576 0 (encode example_mbr)) 3
            (Some 0) (Some 0)) = Value 0x82
  /\ mbr_startsector (encode example_mbr) 2 + mbr_sectors (encode example_mbr) 2
     <= 1048576.
Proof.
  pose proof (select_partition_outcome (disk 1048576 0 (encode example_mbr))
                (ideal_impl (encode example_mbr)) (disk_cfg 512 1048576 0)
                (encode example_mbr) 3 0 0 eq_refl eq_refl eq_refl) as H.
  cbv zeta in H.
  destruct H as (Hacc & _ & Hbound).
  - vm_compute. reflexivity.
  - lia.
  - split.
    + destruct Hacc as (Hr & _); [vm_compute; reflexivity|].
      rewrite Hr. vm_compute. reflexivity.
    + assert (is_uint32 (blktotal (disk_cfg 512 1048576 0))) as Hbt
        by (unfold is_uint32; cbn; lia).
      assert (Forall is_byte (encode example_mbr)) as Hbytes.
      { apply bytes_check. vm_compute. reflexivity. }
      assert (sr_ret (blockio_select_partition (disk 1048576 0 (encode example_mbr)) 3
                        (Some 0) (Some 0)) = Value 0x82) as Hret
        by (vm_compute; reflexivity).
      destruct (Hbound eq_refl Hbt Hbytes 0x82 Hret) as (_ & _ & Hb). exact Hb.
Defined.

End SelectOutcome.

(** ** Which transfers an operation can make *)

Section TransferDiscipline.

(** X11: [blockio_write_partitiontable] never reads a sector (it does not
    look at the MBR it replaces) and makes at most one transfer;
    [blockio_select_partition] never writes and makes at most one
    transfer; [blockio_write_partitiontype] writes only after its read, at
    the same sector address, has transferred exactly one sector, and
    writes one sector: a write found in its trace is the last call of the
    trace, the calls before it hold that read and no write. *)
Theorem transfer_discipline fd :
  (forall size e,
     e ∈ tr_trace (blockio_write_partitiontable fd size) ->
     (forall lba n ret, e <> ReadSectors lba n ret)
     /\ (length (sector_io (tr_trace (blockio_write_partitiontable fd size))) <= 1)%nat)
  /\ (forall nr p q e,
        e ∈ sr_trace (blockio_select_partition fd nr p q) ->
        (forall data lba n ret, e <> WriteSectors data lba n ret)
        /\ (length (sector_io (sr_trace (blockio_select_partition fd nr p q))) <= 1)%nat)
  /\ (forall nr t data lba n ret,
        WriteSectors data lba n ret ∈ (blockio_write_partitiontype fd nr t).2 ->
        n = 1 /\ ReadSectors lba 1 1 ∈ (blockio_write_partitiontype fd nr t).2
        /\ exists before,
             (blockio_write_partitiontype fd nr t).2
             = before ++ [WriteSectors data lba n ret]
             /\ ReadSectors lba 1 1 ∈ before
             /\ forall data' lba' n' ret', WriteSectors data' lba' n' ret' ∉ before).
Proof.
  split; [|split].
  - intros size e. unfold blockio_write_partitiontable.
    destruct (devctl_impl fd) as [impl|]; [|intros H; trace_mem H; subst e; (split; [done|by apply Nat.leb_le])].
    destruct (devctl_cfg fd) as [cfg|]; [|intros H; trace_mem H; subst e; (split; [done|by apply Nat.leb_le])].
    destruct (partition_sizing cfg size) as [res slack|err res|];
      cbn; intros H; trace_mem H; subst e; (split; [done|by apply Nat.leb_le]).
  - intros nr p q e. unfold blockio_select_partition.
    destruct p, q; try (intros H; by trace_mem H).
    destruct (_ || _); [intros H; by trace_mem H|].
    destruct (devctl_impl fd) as [impl|]; [|intros H; trace_mem H; subst e; (split; [done|by apply Nat.leb_le])].
    destruct (devctl_cfg fd) as [cfg|]; [|intros H; trace_mem H; subst e; (split; [done|by apply Nat.leb_le])].
    destruct (read_sectors impl (blkstart cfg) 1) as [got buf].
    destruct (negb (got =? 1));
      [cbn; intros H; trace_mem H; subst e; (split; [done|by apply Nat.leb_le])|].
    destruct (negb (_ =? BLOCKIO_MBR_SIGNATURE));
      [cbn; intros H; trace_mem H; subst e; (split; [done|by apply Nat.leb_le])|].
    destruct (sanity_check impl) as [check|].
    + destruct (negb (check _ _ _)); cbn; intros H; trace_mem H; subst e;
        (split; [done|by apply Nat.leb_le]).
    + destruct (_ || _); cbn; intros H; trace_mem H; subst e; (split; [done|by apply Nat.leb_le]).
  - intros nr t data lba n ret. unfold blockio_write_partitiontype.
    destruct (devctl_impl fd) as [impl|]; [|intros H; by trace_mem H].
    destruct (devctl_cfg fd) as [cfg|]; [|intros H; by trace_mem H].
    destruct (read_sectors impl (blkstart cfg) 1) as [got buf].
    destruct (got =? 1) eqn:Hgot; cbn [negb]; [|cbn; intros H; by trace_mem H].
    apply Z.eqb_eq in Hgot. subst got.
    destruct (_ && _); [|cbn; intros H; by trace_mem H].
    destruct (negb (_ =? 1)); cbn; intros H; trace_mem H;
      injection H as -> -> -> ->; (split; [done|]);
      (split; [do 2 apply list_elem_of_further; apply list_elem_of_here|]);
      exists [Devctl DEVCTL_BLOCKIO_IMPL; Devctl DEVCTL_BLOCKIO_CFG;
              ReadSectors (blkstart cfg) 1 1];
      (split; [done|]);
      (split; [do 2 apply list_elem_of_further; apply list_elem_of_here|]);
      intros data' lba' n' ret' Hin; by trace_mem Hin.
Qed.

(** The patch of entry 2 on a working disk: the write of the patched
    sector is the last call, after the two lookups and the read of sector 0
    that transferred one sector. *)
Lemma transfer_discipline_witness :
  let trace := (blockio_write_partitiontype (disk 2048 0 zero_sector) 2 0x83).2 in
  let wr := WriteSectors (<[466%nat := 0x83]> zero_sector) 0 1 1 in
  wr ∈ trace
  /\ exists before,
       trace = before ++ [wr]
       /\ ReadSectors 0 1 1 ∈ before
       /\ forall data' lba' n' ret', WriteSectors data' lba' n' ret' ∉ before.
Proof.
  cbv zeta.
  assert (WriteSectors (<[466%nat := 0x83]> zero_sector) 0 1 1
          ∈ (blockio_write_partitiontype (disk 2048 0 zero_sector) 2 0x83).2) as Hin.
  { vm_compute. do 3 apply list_elem_of_further. apply list_elem_of_here. }
  split; [exact Hin|].
  destruct (transfer_discipline (disk 2048 0 zero_sector)) as (_ & _ & H).
  destruct (H 2 0x83 (<[466%nat := 0x83]> zero_sector) 0 1 1 Hin) as (_ & _ & Hbefore).
  exact Hbefore.
Defined.

End TransferDiscipline.
